(** * Bigtable byte store: the async core and its sync/async facade

    A shallow embedding of
    [src/langchain_google_bigtable/async_key_value_store.py] and
    [src/langchain_google_bigtable/key_value_store.py], with the properties
    of the byte-store operations proved over it. *)

From stdpp Require Import gmap strings list fin_maps.
From Stdlib Require Import ZArith Lia Ascii.

Open Scope Z_scope.

(** ** Python text and bytes

    A Python [str] is a sequence of code points, a [bytes] object a sequence
    of octets; both are lists of integers here.  [ord] is the identity and
    [chr] is partial. *)

Abbreviation pystr := (list Z).
Abbreviation pybytes := (list Z).

(** The exceptions the two modules can raise, under their Python names. *)
Inductive exn : Type :=
  | UnicodeEncodeError
  | UnicodeDecodeError
  | ValueError (msg : string)
  | AttributeError (attr : string)
  | Exception_ (msg : string)
  | InitializationError
  | NameError (name : string)
  | TypeError_ (msg : string).

Inductive result (A : Type) : Type :=
  | Ok (a : A)
  | Raise (e : exn).
Arguments Ok {A} a.
Arguments Raise {A} e.

Module Text.

(** Code points of an ASCII literal, to write keys such as "ab1". *)
Definition of_string (s : string) : pystr :=
  List.map (fun a => Z.of_nat (Ascii.nat_of_ascii a)) (String.list_ascii_of_string s).

(** [chr(n)]: defined on [range(0x110000)], [ValueError] elsewhere. *)
Definition chr (n : Z) : result Z :=
  if (0 <=? n) && (n <? 0x110000) then Ok n
  else Raise (ValueError "chr() arg not in range(0x110000)").

Definition ord (c : Z) : Z := c.

(** Unicode scalar values: the code points UTF-8 can carry. *)
Definition scalar (c : Z) : bool :=
  ((0 <=? c) && (c <? 0xD800)) || ((0xE000 <=? c) && (c <? 0x110000)).

(** A string is text when it holds no lone surrogate. *)
Definition is_text (s : pystr) : bool := forallb scalar s.

Definition encode_char (c : Z) : option pybytes :=
  if negb (scalar c) then None
  else if c <? 0x80 then Some [c]
  else if c <? 0x800 then Some [0xC0 + c / 64; 0x80 + c mod 64]
  else if c <? 0x10000 then
    Some [0xE0 + c / 4096; 0x80 + (c / 64) mod 64; 0x80 + c mod 64]
  else
    Some [0xF0 + c / 262144; 0x80 + (c / 4096) mod 64;
          0x80 + (c / 64) mod 64; 0x80 + c mod 64].

(** [s.encode('utf-8')] with the default strict error handler. *)
Fixpoint encode_opt (s : pystr) : option pybytes :=
  match s with
  | [] => Some []
  | c :: s' =>
      match encode_char c, encode_opt s' with
      | Some b, Some bs => Some (b ++ bs)
      | _, _ => None
      end
  end.

Definition encode (s : pystr) : result pybytes :=
  match encode_opt s with
  | Some b => Ok b
  | None => Raise UnicodeEncodeError
  end.

(** A continuation octet, 10xxxxxx. *)
Definition cont (b : Z) : bool := (0x80 <=? b) && (b <? 0xC0).

(** [b.decode('utf-8')], strict: overlong forms, surrogates and values
    above U+10FFFF are refused. *)
Fixpoint decode_opt (bs : pybytes) : option pystr :=
  match bs with
  | [] => Some []
  | b0 :: t0 =>
      if (0 <=? b0) && (b0 <? 0x80) then cons b0 <$> decode_opt t0
      else if (0xC2 <=? b0) && (b0 <? 0xE0) then
        match t0 with
        | b1 :: t1 =>
            if cont b1
            then cons ((b0 - 0xC0) * 64 + (b1 - 0x80)) <$> decode_opt t1
            else None
        | _ => None
        end
      else if (0xE0 <=? b0) && (b0 <? 0xF0) then
        match t0 with
        | b1 :: b2 :: t2 =>
            let c := (b0 - 0xE0) * 4096 + (b1 - 0x80) * 64 + (b2 - 0x80) in
            if cont b1 && cont b2 && (0x800 <=? c) && scalar c
            then cons c <$> decode_opt t2
            else None
        | _ => None
        end
      else if (0xF0 <=? b0) && (b0 <? 0xF5) then
        match t0 with
        | b1 :: b2 :: b3 :: t3 =>
            let c := (b0 - 0xF0) * 262144 + (b1 - 0x80) * 4096
                     + (b2 - 0x80) * 64 + (b3 - 0x80) in
            if cont b1 && cont b2 && cont b3 && (0x10000 <=? c) && scalar c
            then cons c <$> decode_opt t3
            else None
        | _ => None
        end
      else None
  end.

Definition decode (bs : pybytes) : result pystr :=
  match decode_opt bs with
  | Some s => Ok s
  | None => Raise UnicodeDecodeError
  end.

(** Order of byte strings, the order of row keys. *)
Fixpoint ltb (a b : pybytes) : bool :=
  match a, b with
  | _, [] => false
  | [], _ :: _ => true
  | x :: a', y :: b' => (x <? y) || ((x =? y) && ltb a' b')
  end.

Definition leb (a b : pybytes) : bool := negb (ltb b a).

End Text.

(** ** The remote store client

    The wide-column store and its client are an external collaborator.  The
    model follows the contract the byte store relies on: a table maps a row
    key to the cells of the row, by column family and qualifier, each column
    holding its cells most recent first; reads return each matching row once,
    in an order the caller does not control; mutations are set-cell and
    delete-row. *)

Record Cell : Type := mkCell { value : pybytes }.

Abbreviation Cells := (gmap (list Z) (gmap (list Z) (list Cell))).
Abbreviation Table := (gmap (list Z) (gmap (list Z) (gmap (list Z) (list Cell)))).

Record Row : Type := mkRow { row_key : pybytes; cells : Cells }.

Inductive RowOp : Type :=
  | SetCell (family : pystr) (qualifier : pybytes) (val : pybytes)
  | DeleteRow.

(** [DirectRow]: a row key and the mutations queued on it. *)
Record DirectRow : Type := mkDirectRow { dr_row_key : pybytes; dr_ops : list RowOp }.

Definition DirectRow_new (row_key : pybytes) : DirectRow := mkDirectRow row_key [].

Definition set_cell (m : DirectRow) (family : pystr) (qualifier val : pybytes) : DirectRow :=
  mkDirectRow (dr_row_key m) (dr_ops m ++ [SetCell family qualifier val]).

Definition delete_row (m : DirectRow) : DirectRow :=
  mkDirectRow (dr_row_key m) (dr_ops m ++ [DeleteRow]).

Inductive RowFilter : Type := StripValueFilter.

(** A row-range of a [RowSet], start inclusive and end exclusive. *)
Record RowRange : Type := mkRowRange { range_start : pybytes; range_end : pybytes }.

Inductive Call : Type :=
  | ReadRows (rows : list pybytes)
  | ReadRowsFilter (filter_ : RowFilter)
  | ReadRowsRowSet (row_set : list RowRange)
  | MutateRows (mutations : list DirectRow).

(** The state behind a table handle: the table and, as instrumentation, the
    calls the client has received. *)
Record Remote : Type := mkRemote { contents : Table; calls : list Call }.

Definition column (c : Cells) (family : pystr) (qualifier : pybytes) : list Cell :=
  default [] (default ∅ (c !! family) !! qualifier).

Definition apply_op (key : pybytes) (t : Table) (op : RowOp) : Table :=
  match op with
  | SetCell f q v =>
      let row := default ∅ (t !! key) in
      <[key := <[f := <[q := mkCell v :: column row f q]> (default ∅ (row !! f))]> row]> t
  | DeleteRow => delete key t
  end.

Definition apply_mutation (t : Table) (m : DirectRow) : Table :=
  foldl (apply_op (dr_row_key m)) t (dr_ops m).

Definition strip_values (c : Cells) : Cells :=
  fmap (M := gmap (list Z)) (fmap (M := gmap (list Z)) (List.map (fun _ => mkCell []))) c.

Definition in_range (rg : RowRange) (k : pybytes) : bool :=
  Text.leb (range_start rg) k && Text.ltb k (range_end rg).

(** ** A state and exception monad for the operations *)

Definition M (A : Type) : Type := Remote → result A * Remote.

Definition ret {A} (a : A) : M A := λ r, (Ok a, r).

Definition bind {A B} (m : M A) (f : A → M B) : M B := λ r,
  match m r with
  | (Ok a, r') => f a r'
  | (Raise e, r') => (Raise e, r')
  end.

Notation "x <- m ;; k" := (bind m (λ x, k))
  (at level 100, m at next level, right associativity).

(** Sequencing in a pure, fallible computation. *)
Notation "'try' x := e 'in' k" :=
  (match e with Ok x => k | Raise err => Raise err end)
  (at level 100, x name, e at next level, right associativity).

Definition lift {A} (x : result A) : M A := λ r, (x, r).

Definition record_call (c : Call) : M unit :=
  λ r, (Ok (), mkRemote (contents r) (calls r ++ [c])).

(** The client object.  Which rows it reads and writes is the state of the
    monad; the order in which it hands back the rows of a read is its own. *)
Record BigtableDataClientAsync : Type :=
  mkClient { project : option string; read_order : list Row → list Row }.

(** A client is faithful when a read hands back the matching rows, each once,
    in whatever order. *)
Definition faithful (c : BigtableDataClientAsync) : Prop :=
  ∀ l, read_order c l ≡ₚ l.

Record TableAsync : Type :=
  mkTableAsync {
    th_client : BigtableDataClientAsync;
    th_instance_id : string;
    th_table_id : string;
    th_app_profile_id : option string }.

Definition get_table (c : BigtableDataClientAsync)
    (instance_id table_id : string) (app_profile_id : option string) : TableAsync :=
  mkTableAsync c instance_id table_id app_profile_id.

Definition rows_of (ks : list pybytes) (t : Table) : list Row :=
  omap (λ k, mkRow k <$> t !! k) ks.

Definition all_rows (t : Table) : list Row :=
  (λ kc, mkRow kc.1 kc.2) <$> map_to_list t.

Definition strip_row (row : Row) : Row :=
  mkRow (row_key row) (strip_values (cells row)).

(** [table.read_rows(rows=row_keys)] *)
Definition read_rows (h : TableAsync) (row_keys : list pybytes) : M (list Row) :=
  _ <- record_call (ReadRows row_keys) ;;
  λ r, (Ok (read_order (th_client h) (rows_of (remove_dups row_keys) (contents r))), r).

(** [table.read_rows(filter_=row_filter)] *)
Definition read_rows_filter (h : TableAsync) (f : RowFilter) : M (list Row) :=
  _ <- record_call (ReadRowsFilter f) ;;
  λ r, (Ok (read_order (th_client h) (strip_row <$> all_rows (contents r))), r).

(** [table.read_rows(row_set=row_set)] *)
Definition read_rows_row_set (h : TableAsync) (row_set : list RowRange) : M (list Row) :=
  _ <- record_call (ReadRowsRowSet row_set) ;;
  λ r, (Ok (read_order (th_client h)
              (List.filter (λ row, existsb (λ rg, in_range rg (row_key row)) row_set)
                 (all_rows (contents r)))), r).

(** [table.mutate_rows(mutations)] *)
Definition mutate_rows (h : TableAsync) (mutations : list DirectRow) : M unit :=
  _ <- record_call (MutateRows mutations) ;;
  λ r, (Ok (), mkRemote (foldl apply_mutation (contents r) mutations) (calls r)).

(** Modelled from the spec: the Execution Engine (engine.py is not under
    src/).  It owns the client handle and one background context; its two
    entry points, modelled further down, run an asynchronous operation to
    completion, either blocking the calling thread or suspending the calling
    task. *)
Record BigtableEngine : Type := mkEngine { client : BigtableDataClientAsync }.

(** ** Names at module level

    The names that [async_key_value_store.py] binds at module level: those
    its import statements bring in and the class it defines.  A name used in
    a function body that is bound neither there, nor here, nor among the
    builtins is a [NameError] when the line runs. *)

Definition async_key_value_store_globals : list string :=
  ["asyncio"; "Thread"; "Any"; "AsyncIterator"; "Dict"; "Iterator"; "List";
   "Optional"; "Sequence"; "Tuple"; "BigtableEngine"; "BigtableDataClientAsync";
   "DirectRow"; "Row"; "Cell"; "AsyncBigtableByteStore"].

Definition load_global (name : string) : result unit :=
  if existsb (String.eqb name) async_key_value_store_globals then Ok ()
  else Raise (NameError name).

(** ** The async core: [AsyncBigtableByteStore] *)

Module AsyncBigtableByteStore.

Record t : Type :=
  mk {
    engine : BigtableEngine;
    instance_id : string;
    table_id : string;
    value_column_family : pystr;
    value_column_qualifier : pystr;
    table : TableAsync }.

Definition __init__ (engine : BigtableEngine) (instance_id table_id : string)
    (value_column_family value_column_qualifier : pystr)
    (app_profile_id : option string) : t :=
  mk engine instance_id table_id value_column_family value_column_qualifier
     (get_table (client engine) instance_id table_id app_profile_id).

(** [create]: the async factory; it returns the constructed object. *)
Definition create (engine : BigtableEngine) (instance_id table_id : string)
    (value_column_family value_column_qualifier : pystr)
    (app_profile_id : option string) : M t :=
  ret (__init__ engine instance_id table_id value_column_family
         value_column_qualifier app_profile_id).

(** [[key.encode('utf-8') for key in keys]] *)
Fixpoint encode_all (keys : list pystr) : result (list pybytes) :=
  match keys with
  | [] => Ok []
  | key :: rest =>
      try b := Text.encode key in
      try bs := encode_all rest in
      Ok (b :: bs)
  end.

(** [{row.row_key: row for row in rows}]: a later row replaces an earlier
    one under the same key. *)
Definition row_maps (rows : list Row) : gmap (list Z) Row :=
  foldl (λ m row, <[row_key row := row]> m) ∅ rows.

(** The loop of [amget] over [row_keys], appending to [results].  A row found
    in the dict counts as true in [if row]; a row object without any cell,
    were it to count as false, would give the same [None]. *)
Fixpoint amget_loop (self : t) (maps : gmap (list Z) Row)
    (row_keys : list pybytes) (results : list (option pybytes))
    : result (list (option pybytes)) :=
  match row_keys with
  | [] => Ok results
  | key :: rest =>
      match maps !! key with
      | Some row =>
          try q := Text.encode (value_column_qualifier self) in
          match column (cells row) (value_column_family self) q with
          | c :: _ => amget_loop self maps rest (results ++ [Some (value c)])
          | [] => amget_loop self maps rest (results ++ [None])
          end
      | None => amget_loop self maps rest (results ++ [None])
      end
  end.

Definition amget (self : t) (keys : list pystr) : M (list (option pybytes)) :=
  match keys with
  | [] => ret []
  | _ :: _ =>
      row_keys <- lift (encode_all keys) ;;
      rows <- read_rows (table self) row_keys ;;
      lift (amget_loop self (row_maps rows) row_keys [])
  end.

(** The loop of [amset] over [kv_pairs], appending to [mutations]. *)
Fixpoint amset_loop (self : t) (kv_pairs : list (pystr * pybytes))
    (mutations : list DirectRow) : result (list DirectRow) :=
  match kv_pairs with
  | [] => Ok mutations
  | (key, val) :: rest =>
      try k := Text.encode key in
      let mutation := DirectRow_new k in
      try q := Text.encode (value_column_qualifier self) in
      let mutation := set_cell mutation (value_column_family self) q val in
      amset_loop self rest (mutations ++ [mutation])
  end.

Definition amset (self : t) (kv_pairs : list (pystr * pybytes)) : M unit :=
  mutations <- lift (amset_loop self kv_pairs []) ;;
  match mutations with
  | [] => ret ()
  | _ :: _ => mutate_rows (table self) mutations
  end.

(** The loop of [amdelete] over [keys], appending to [mutations]. *)
Fixpoint amdelete_loop (keys : list pystr) (mutations : list DirectRow)
    : result (list DirectRow) :=
  match keys with
  | [] => Ok mutations
  | key :: rest =>
      try k := Text.encode key in
      let mutation := DirectRow_new k in
      let mutation := delete_row mutation in
      amdelete_loop rest (mutations ++ [mutation])
  end.

Definition amdelete (self : t) (keys : list pystr) : M unit :=
  mutations <- lift (amdelete_loop keys []) ;;
  match mutations with
  | [] => ret ()
  | _ :: _ => mutate_rows (table self) mutations
  end.

(** What an async generator does when consumed to its end: the items it
    yields and the exception that ends it, if one does. *)
Definition Gen (A : Type) : Type := Remote → (list A * option exn) * Remote.

(** [async for row in ...: yield row.row_key.decode('utf-8')] *)
Fixpoint yield_row_keys (rows : list Row) : list pystr * option exn :=
  match rows with
  | [] => ([], None)
  | row :: rest =>
      match Text.decode (row_key row) with
      | Ok s => let '(ys, e) := yield_row_keys rest in (s :: ys, e)
      | Raise e => ([], Some e)
      end
  end.

(** [prefix[:-1] + chr(ord(prefix[-1]) + 1)] *)
Definition end_key (prefix : pystr) : result pystr :=
  try ch := Text.chr (Text.ord (List.last prefix 0) + 1) in
  Ok (removelast prefix ++ [ch]).

(** The rows [ayield_keys] iterates over.  [StripValueFilter] and [RowSet]
    are looked up at module level when their lines run. *)
Definition scan (self : t) (prefix : option pystr) : M (list Row) :=
  match prefix with
  | None | Some [] =>
      _ <- lift (load_global "StripValueFilter") ;;
      let row_filter := StripValueFilter in
      read_rows_filter (table self) row_filter
  | Some p =>
      e <- lift (end_key p) ;;
      _ <- lift (load_global "RowSet") ;;
      lo <- lift (Text.encode p) ;;
      hi <- lift (Text.encode e) ;;
      let row_set := [mkRowRange lo hi] in
      read_rows_row_set (table self) row_set
  end.

Definition ayield_keys (self : t) (prefix : option pystr) : Gen pystr := λ r,
  match scan self prefix r with
  | (Ok rows, r') => (yield_row_keys rows, r')
  | (Raise e, r') => (([], Some e), r')
  end.

End AsyncBigtableByteStore.

(** ** Attribute access inside a class body *)

Definition ends_with (suffix s : string) : bool :=
  let n := String.length s in
  let m := String.length suffix in
  (m <=? n)%nat && String.eqb (String.substring (n - m) m s) suffix.

Fixpoint lstrip_underscores (s : string) : string :=
  match s with
  | String "_"%char s' => lstrip_underscores s'
  | _ => s
  end.

(** Python's mangling of private names: inside the body of class [cls] an
    identifier with two leading underscores that does not end in two
    underscores is replaced by [_cls] followed by the identifier. *)
Definition mangle (cls name : string) : string :=
  if String.prefix "__" name && negb (ends_with "__" name)
  then String.append "_" (String.append (lstrip_underscores cls) name)
  else name.

(** The two entry points of the Engine. *)
Inductive EntryPoint : Type := RunAsSync | RunAsAsync.

(** Modelled from the spec: the attributes of the Execution Engine (engine.py
    is not under src/).  The Engine exposes one "run synchronously" and one
    "run asynchronously" entry point; they carry the names under which the
    entry points of the facade reach them, [_run_as_sync] and
    [_run_as_async].  Any other name is no attribute of the Engine. *)
Definition BigtableEngine_getattr (e : BigtableEngine) (name : string) : result EntryPoint :=
  if String.eqb name "_run_as_sync" then Ok RunAsSync
  else if String.eqb name "_run_as_async" then Ok RunAsAsync
  else Raise (AttributeError name).

(** Modelled from the spec: what the entry points do with an asynchronous
    operation.  "Run synchronously" runs it to completion before it returns.
    "Run asynchronously" suspends its caller until the result is available:
    it is itself an asynchronous operation, and calling it yields an
    awaitable that runs the operation when it is awaited and not before. *)
Definition dispatch {A} (ep : EntryPoint) (coro : M A) : M A :=
  match ep with
  | RunAsSync => coro
  | RunAsAsync => coro
  end.

(** ** The facade: [BigtableByteStore] *)

Definition DEFAULT_VALUE_COLUMN_FAMILY : pystr := Text.of_string "kv".
Definition DEFAULT_VALUE_COLUMN_QUALIFIER : pystr := Text.of_string "val".

(** Python objects as the guard of [__init__] sees them: an identity and,
    where the class of the object defines one, its own [__ne__], given by
    its answer on the identity of the object it is compared with. *)
Record object : Type := mkObject { object_id : nat; own_ne : option (nat → bool) }.

Module BigtableByteStore.

Definition __name__ : string := "BigtableByteStore".

(** [__create_key = object()]: a plain object. *)
Definition __create_key : object := mkObject 0 None.

Record t : Type :=
  mk { _engine : BigtableEngine; __async_store : AsyncBigtableByteStore.t }.

(** [a != b]: the own [__ne__] of [a] where it has one, and otherwise the
    default one, which compares identities. *)
Definition object_ne (a b : object) : bool :=
  match own_ne a with
  | Some ne => ne (object_id b)
  | None => negb (Nat.eqb (object_id a) (object_id b))
  end.

Definition __init__ (key : object) (engine : BigtableEngine)
    (async_store : AsyncBigtableByteStore.t) : result t :=
  if object_ne key __create_key
  then Raise (Exception_ "Do not call the constructor directly. Use a .create() or .create_sync() factory method.")
  else Ok (mk engine async_store).

(** The names the class body binds, lines 63 to 187. *)
Definition class_body : list string :=
  mangle __name__ <$>
    ["__create_key"; "__init__"; "create_sync"; "create"; "mget"; "amget"; "mset"; "amset"].

(** The base class, LangChain's [BaseStore] (lines 22 and 57), is abstract;
    these are the methods it declares abstract. *)
Definition BaseStore_abstractmethods : list string :=
  ["mget"; "mset"; "mdelete"; "yield_keys"].

(** The abstract methods that the class body leaves undefined. *)
Definition __abstractmethods__ : list string :=
  List.filter (λ m, negb (existsb (String.eqb m) class_body)) BaseStore_abstractmethods.

(** [cls(key, engine, async_store)]: a class that leaves abstract methods
    undefined cannot be instantiated; for any other class the object is made
    and [__init__] runs on it. *)
Definition new (key : object) (engine : BigtableEngine)
    (async_store : AsyncBigtableByteStore.t) : result t :=
  match __abstractmethods__ with
  | [] => __init__ key engine async_store
  | _ :: _ =>
      Raise (TypeError_
               (String.append
                  "Can't instantiate abstract class BigtableByteStore with abstract methods "
                  (String.concat ", " __abstractmethods__)))
  end.

Section Factories.

(** Modelled from the spec: [get_async_data_client] of the module
    [common] and [BigtableEngine.sync_initialize] of the module [engine],
    neither under src/.  The first builds a client for a project; the
    second builds an Engine around a client and fails with an
    [InitializationError] when the background context cannot start. *)
Variable get_async_data_client : option string → BigtableDataClientAsync.
Variable sync_initialize : BigtableDataClientAsync → result BigtableEngine.

(** The lines shared by the two factories: take the engine given, or
    build a client where none is given and an engine around it. *)
Definition engine_or_default (engine : option BigtableEngine)
    (async_data_client : option BigtableDataClientAsync)
    (project_id : option string) : result BigtableEngine :=
  match engine with
  | Some e => Ok e
  | None =>
      let async_data_client :=
        match async_data_client with
        | Some c => c
        | None => get_async_data_client project_id
        end in
      sync_initialize async_data_client
  end.

Definition create_sync (instance_id table_id : string)
    (engine : option BigtableEngine)
    (async_data_client : option BigtableDataClientAsync)
    (project_id : option string)
    (value_column_family value_column_qualifier : pystr)
    (app_profile_id : option string) : M t :=
  match engine, async_data_client with
  | Some _, Some _ =>
      lift (Raise (ValueError "Cannot provide both 'engine' and 'async_data_client'."))
  | _, _ =>
      engine <- lift (engine_or_default engine async_data_client project_id) ;;
      let coro :=
        AsyncBigtableByteStore.create engine instance_id table_id
          value_column_family value_column_qualifier app_profile_id in
      run <- lift (BigtableEngine_getattr engine (mangle __name__ "__run_as_sync")) ;;
      async_store <- dispatch run coro ;;
      lift (new __create_key engine async_store)
  end.

Definition create (instance_id table_id : string)
    (engine : option BigtableEngine)
    (async_data_client : option BigtableDataClientAsync)
    (project_id : option string)
    (value_column_family value_column_qualifier : pystr)
    (app_profile_id : option string) : M t :=
  engine <- lift (engine_or_default engine async_data_client project_id) ;;
  async_store <-
    AsyncBigtableByteStore.create engine instance_id table_id
      value_column_family value_column_qualifier app_profile_id ;;
  lift (new __create_key engine async_store).

End Factories.

(** [self._engine._run_as_sync] and [self._engine._run_as_async] *)
Definition engine_entry (self : t) (name : string) : M EntryPoint :=
  lift (BigtableEngine_getattr (_engine self) (mangle __name__ name)).

Definition mget (self : t) (keys : list pystr) : M (list (option pybytes)) :=
  run <- engine_entry self "_run_as_sync" ;;
  dispatch run (AsyncBigtableByteStore.amget (__async_store self) keys).

Definition amget (self : t) (keys : list pystr) : M (list (option pybytes)) :=
  run <- engine_entry self "_run_as_async" ;;
  awaited <- dispatch run (AsyncBigtableByteStore.amget (__async_store self) keys) ;;
  ret awaited.

Definition mset (self : t) (kv_pairs : list (pystr * pybytes)) : M unit :=
  run <- engine_entry self "_run_as_sync" ;;
  dispatch run (AsyncBigtableByteStore.amset (__async_store self) kv_pairs).

(** The awaitable of the dispatch is returned as it is, not awaited. *)
Definition amset (self : t) (kv_pairs : list (pystr * pybytes)) : M (M unit) :=
  run <- engine_entry self "_run_as_async" ;;
  ret (dispatch run (AsyncBigtableByteStore.amset (__async_store self) kv_pairs)).

(** The byte-store operations and the two kinds of entry point. *)
Inductive Operation : Type := Get | Set_ | Delete | YieldKeys.
Inductive Kind : Type := Blocking | Suspending.

(** The entry points the class body defines, lines 173 to 187: name, kind,
    the operation of the async core it wraps, the Engine entry point it
    goes through. *)
Definition entry_points : list (string * Kind * Operation * EntryPoint) :=
  [("mget", Blocking, Get, RunAsSync);
   ("amget", Suspending, Get, RunAsAsync);
   ("mset", Blocking, Set_, RunAsSync);
   ("amset", Suspending, Set_, RunAsAsync)].

Definition kind_eqb (a b : Kind) : bool :=
  match a, b with
  | Blocking, Blocking | Suspending, Suspending => true
  | _, _ => false
  end.

Definition operation_eqb (a b : Operation) : bool :=
  match a, b with
  | Get, Get | Set_, Set_ | Delete, Delete | YieldKeys, YieldKeys => true
  | _, _ => false
  end.

(** The class has an entry point of kind [k] for operation [op]. *)
Definition exposes (k : Kind) (op : Operation) : bool :=
  existsb (λ '(_, k', op', _), kind_eqb k k' && operation_eqb op op') entry_points.

End BigtableByteStore.

(** ** The vocabulary of the statements *)

(** The UTF-8 form of a text; the empty byte string stands in where the
    string is no text, which the statements below exclude. *)
Definition utf8 (s : pystr) : pybytes := default [] (Text.encode_opt s).

Definition all_text (keys : list pystr) : bool := forallb Text.is_text keys.

Section Vocabulary.

Import AsyncBigtableByteStore.

(** The value of the first cell of the configured column, if it has one. *)
Definition first_value (self : t) (cs : Cells) : option pybytes :=
  match column cs (value_column_family self) (utf8 (value_column_qualifier self)) with
  | c :: _ => Some (value c)
  | [] => None
  end.

(** What the table holds for a key, in the words of the specification: the
    value of the first, most recent cell when the row exists and the
    configured column has at least one cell, nothing when the row does not
    exist or lacks that column. *)
Definition stored (self : t) (tb : Table) (key : pystr) : option pybytes :=
  match tb !! utf8 key with
  | Some cs => first_value self cs
  | None => None
  end.

(** The mutation [amset] builds for one pair. *)
Definition set_mutation (self : t) (kv : pystr * pybytes) : DirectRow :=
  set_cell (DirectRow_new (utf8 kv.1)) (value_column_family self)
    (utf8 (value_column_qualifier self)) kv.2.

(** The mutation [amdelete] builds for one key. *)
Definition delete_mutation (key : pystr) : DirectRow :=
  delete_row (DirectRow_new (utf8 key)).

End Vocabulary.

(** The row keys of a table. *)
Definition key_list (tb : Table) : list pybytes := (map_to_list tb).*1.

(** Every row key of the table is valid UTF-8. *)
Definition utf8_keys (tb : Table) : bool :=
  forallb (λ k, bool_decide (is_Some (Text.decode_opt k))) (key_list tb).

(** The end of the scanned range, in the words of the specification: the
    prefix with the code point of its last character incremented by one. *)
Definition successor (p : pystr) : pystr := removelast p ++ [List.last p 0 + 1].

(** The prefixes whose successor is again a text: the last code point is
    neither the greatest one nor the one just below the surrogates. *)
Definition has_successor (p : pystr) : bool :=
  negb (List.last p 0 =? 0x10FFFF) && negb (List.last p 0 =? 0xD7FF).

(** Membership of a row key in the half-open range from [lo] to [hi]. *)
Definition between (lo hi k : pybytes) : bool := Text.leb lo k && Text.ltb k hi.

(** The prefixes [ayield_keys] can turn into a range. *)
Definition admissible (prefix : option pystr) : bool :=
  match prefix with
  | None => true
  | Some p => Text.is_text p && has_successor p
  end.

(** A client that hands back the rows of a read last row first. *)
Definition backwards_client : BigtableDataClientAsync := mkClient None (@rev Row).

Definition demo_store : AsyncBigtableByteStore.t :=
  AsyncBigtableByteStore.__init__ (mkEngine backwards_client) "instance" "table"
    (Text.of_string "kv") (Text.of_string "val") None.

Definition empty_remote : Remote := mkRemote ∅ [].

(** The table of the specification's example: keys ab1, ab2, ac1 and b1. *)
Definition demo_remote : Remote :=
  (AsyncBigtableByteStore.amset demo_store
     [(Text.of_string "ab1", [1]); (Text.of_string "ab2", [2]);
      (Text.of_string "ac1", [3]); (Text.of_string "b1", [4])] empty_remote).2.

(** A table with one row whose key, the octet 0xFF, is not UTF-8. *)
Definition raw_remote : Remote :=
  mkRemote {[ [0xFF] := {[ Text.of_string "kv" := {[ Text.of_string "val" := [mkCell [1]] ]} ]} ]} [].

Definition demo_pairs : list (pystr * pybytes) :=
  [(Text.of_string "ab1", [1]); (Text.of_string "ab2", [2]);
   (Text.of_string "ac1", [3]); (Text.of_string "b1", [4])].

Definition demo_query : list pystr :=
  [Text.of_string "b1"; Text.of_string "ab1"; Text.of_string "b1"].

Definition demo_facade : BigtableByteStore.t :=
  BigtableByteStore.mk (mkEngine backwards_client) demo_store.

(** ** Further vocabulary *)

(** [s.startswith(p)] *)
Fixpoint starts_with (p s : pystr) : bool :=
  match p, s with
  | [], _ => true
  | _ :: _, [] => false
  | c :: p', d :: s' => (c =? d) && starts_with p' s'
  end.

(** ** Table provisioning *)

(** [bigtable.column_family.MaxVersionsGCRule] *)
Inductive GCRule : Type := MaxVersionsGCRule (max_num_versions : Z).

Definition DEFAULT_TABLE_COLUMN_FAMILIES : list pystr := [Text.of_string "kv"].

(** The administrative side of the store: the tables that exist, by instance
    and table id, each with its column families and their garbage-collection
    rules. *)
Abbreviation Admin := (gmap (string * string) (gmap (list Z) GCRule)).

Inductive admin_exn : Type := AlreadyExists | TypeError.

(** [table_client.create(column_families=families)]: the table must not
    exist yet. *)
Definition table_create (instance_id table_id : string)
    (families : gmap (list Z) GCRule) (a : Admin) : option admin_exn * Admin :=
  match a !! (instance_id, table_id) with
  | Some _ => (Some AlreadyExists, a)
  | None => (None, <[(instance_id, table_id) := families]> a)
  end.

(** The dict [families] that the loop of [init_byte_store_table] fills. *)
Definition families_of (column_families : list pystr) : gmap (list Z) GCRule :=
  foldl (λ families cf, <[cf := MaxVersionsGCRule 1]> families) ∅ column_families.

(** [column_families] is optional: iterating over [None] is a [TypeError]. *)
Definition init_byte_store_table (instance_id table_id : string)
    (column_families : option (list pystr)) (a : Admin) : option admin_exn * Admin :=
  match column_families with
  | None => (Some TypeError, a)
  | Some cfs => table_create instance_id table_id (families_of cfs) a
  end.

Definition surrogate_pairs : list (pystr * pybytes) :=
  [(Text.of_string "ok", [1]); ([0xD800], [2])].

Definition absent_query : list pystr := [Text.of_string "zz"; Text.of_string "yy"].

(** ** Facts about the codec *)

Section Codec.

Import Text.

Lemma encode_opt_is_text s : is_Some (encode_opt s) ↔ is_text s = true.
Proof.
  induction s as [|c s IH]; simpl.
  - split; eauto.
  - rewrite andb_true_iff, <- IH. unfold encode_char.
    destruct (scalar c); simpl.
    + split.
      * intros [b Hb]. split; [done|].
        destruct (encode_opt s); [eauto|].
        repeat case_match; simplify_eq.
      * intros [_ [b Hb]]. rewrite Hb. repeat case_match; eauto.
    + split; [intros [? ?]; done | intros [? _]; done].
Qed.

Lemma decode_encode_char c b t :
  encode_char c = Some b →
  decode_opt (b ++ t) = cons c <$> decode_opt t.
Proof.
  unfold encode_char. destruct (scalar c) eqn:Hs; simpl; [|done].
  assert (Hc : (0 ≤ c < 0xD800) ∨ (0xE000 ≤ c < 0x110000)).
  { unfold scalar in Hs. lia. }
  destruct (Z.ltb_spec c 0x80).
  { intros [= <-]. simpl.
    destruct (Z.leb_spec 0 c), (Z.ltb_spec c 0x80); simpl; try lia. done. }
  destruct (Z.ltb_spec c 0x800).
  { intros [= <-]. simpl. unfold cont.
    pose proof (Z.div_mod c 64 ltac:(lia)).
    pose proof (Z.mod_pos_bound c 64 ltac:(lia)).
    repeat (match goal with
            | |- context [?a <=? ?b] => destruct (Z.leb_spec a b)
            | |- context [?a <? ?b] => destruct (Z.ltb_spec a b)
            end; simpl; try lia).
    f_equal. f_equal. lia. }
  destruct (Z.ltb_spec c 0x10000).
  { intros [= <-]. simpl. unfold cont, scalar.
    pose proof (Z.div_mod c 64 ltac:(lia)).
    pose proof (Z.mod_pos_bound c 64 ltac:(lia)).
    pose proof (Z.div_mod (c / 64) 64 ltac:(lia)).
    pose proof (Z.mod_pos_bound (c / 64) 64 ltac:(lia)).
    assert (c / 4096 = c / 64 / 64) by (Z.to_euclidean_division_equations; lia).
    assert (Hv : (0xE0 + c / 4096 - 0xE0) * 4096
                 + (0x80 + (c / 64) mod 64 - 0x80) * 64
                 + (0x80 + c mod 64 - 0x80) = c) by lia.
    rewrite Hv.
    repeat (match goal with
            | |- context [?a <=? ?b] => destruct (Z.leb_spec a b)
            | |- context [?a <? ?b] => destruct (Z.ltb_spec a b)
            end; simpl; try lia).
    all: done. }
  intros [= <-]. simpl. unfold cont, scalar.
  pose proof (Z.div_mod c 64 ltac:(lia)).
  pose proof (Z.mod_pos_bound c 64 ltac:(lia)).
  pose proof (Z.div_mod (c / 64) 64 ltac:(lia)).
  pose proof (Z.mod_pos_bound (c / 64) 64 ltac:(lia)).
  pose proof (Z.div_mod (c / 4096) 64 ltac:(lia)).
  pose proof (Z.mod_pos_bound (c / 4096) 64 ltac:(lia)).
  assert (c / 4096 = c / 64 / 64) by (Z.to_euclidean_division_equations; lia).
  assert (c / 262144 = c / 4096 / 64) by (Z.to_euclidean_division_equations; lia).
  assert (Hv : (0xF0 + c / 262144 - 0xF0) * 262144
               + (0x80 + (c / 4096) mod 64 - 0x80) * 4096
               + (0x80 + (c / 64) mod 64 - 0x80) * 64
               + (0x80 + c mod 64 - 0x80) = c) by lia.
  rewrite Hv.
  repeat (match goal with
          | |- context [?a <=? ?b] => destruct (Z.leb_spec a b)
          | |- context [?a <? ?b] => destruct (Z.ltb_spec a b)
          end; simpl; try lia).
  all: done.
Qed.

(** Decoding undoes encoding. *)
Lemma decode_encode_opt s b : encode_opt s = Some b → decode_opt b = Some s.
Proof.
  revert b. induction s as [|c s IH]; intros b; simpl.
  - by intros [= <-].
  - destruct (encode_char c) as [bc|] eqn:Hc; [|done].
    destruct (encode_opt s) as [bs|] eqn:Hs; [|done].
    intros [= <-]. rewrite (decode_encode_char _ _ _ Hc), (IH _ eq_refl). done.
Qed.

Lemma encode_opt_inj s1 s2 b :
  encode_opt s1 = Some b → encode_opt s2 = Some b → s1 = s2.
Proof.
  intros H1%decode_encode_opt H2%decode_encode_opt. congruence.
Qed.

End Codec.

(** ** Running the monad *)

Lemma bind_ok {A B} (m : M A) (f : A → M B) r a r' :
  m r = (Ok a, r') → bind m f r = f a r'.
Proof. unfold bind. by intros ->. Qed.

Lemma read_rows_run h ks r :
  read_rows h ks r =
    (Ok (read_order (th_client h) (rows_of (remove_dups ks) (contents r))),
     mkRemote (contents r) (calls r ++ [ReadRows ks])).
Proof. reflexivity. Qed.

Lemma read_rows_filter_run h f r :
  read_rows_filter h f r =
    (Ok (read_order (th_client h) (strip_row <$> all_rows (contents r))),
     mkRemote (contents r) (calls r ++ [ReadRowsFilter f])).
Proof. reflexivity. Qed.

Lemma read_rows_row_set_run h rs r :
  read_rows_row_set h rs r =
    (Ok (read_order (th_client h)
           (List.filter (λ row, existsb (λ rg, in_range rg (row_key row)) rs)
              (all_rows (contents r)))),
     mkRemote (contents r) (calls r ++ [ReadRowsRowSet rs])).
Proof. reflexivity. Qed.

Lemma mutate_rows_run h ms r :
  mutate_rows h ms r =
    (Ok (), mkRemote (foldl apply_mutation (contents r) ms) (calls r ++ [MutateRows ms])).
Proof. reflexivity. Qed.

(** ** Facts about the async core *)

Lemma encode_text s : Text.is_text s = true → Text.encode s = Ok (utf8 s).
Proof.
  intros [b Hb]%encode_opt_is_text. unfold Text.encode, utf8. by rewrite Hb.
Qed.

Lemma decode_utf8 s : Text.is_text s = true → Text.decode_opt (utf8 s) = Some s.
Proof.
  intros [b Hb]%encode_opt_is_text. unfold utf8. rewrite Hb. simpl.
  by apply decode_encode_opt.
Qed.

Lemma utf8_inj s1 s2 :
  Text.is_text s1 = true → Text.is_text s2 = true → utf8 s1 = utf8 s2 → s1 = s2.
Proof.
  intros H1%decode_utf8 H2%decode_utf8 Heq. rewrite Heq in H1. congruence.
Qed.

Lemma all_text_cons k keys :
  all_text (k :: keys) = true ↔ Text.is_text k = true ∧ all_text keys = true.
Proof. unfold all_text. simpl. apply andb_true_iff. Qed.

Lemma all_text_elem keys k : all_text keys = true → k ∈ keys → Text.is_text k = true.
Proof.
  unfold all_text. rewrite forallb_forall. intros H Hk. apply H.
  by apply list_elem_of_In.
Qed.

Lemma encode_all_text keys :
  all_text keys = true → AsyncBigtableByteStore.encode_all keys = Ok (utf8 <$> keys).
Proof.
  induction keys as [|k keys IH]; [done|].
  intros [Hk Hks]%all_text_cons. simpl.
  by rewrite (encode_text _ Hk), (IH Hks).
Qed.

Section RowMaps.

Import AsyncBigtableByteStore.

Lemma row_maps_snoc rows row :
  row_maps (rows ++ [row]) = <[row_key row := row]> (row_maps rows).
Proof. unfold row_maps. by rewrite foldl_app. Qed.

(** With one row per key, the dict of [amget] finds exactly the rows read. *)
Lemma row_maps_lookup rows k row :
  NoDup (row_key <$> rows) →
  row_maps rows !! k = Some row ↔ row ∈ rows ∧ row_key row = k.
Proof.
  induction rows as [|x rows IH] using rev_ind.
  - intros _. unfold row_maps. simpl. rewrite lookup_empty.
    split; [done|]. intros [H%elem_of_nil _]. done.
  - rewrite fmap_app, NoDup_app. simpl. intros (Hnd & Hdisj & _).
    rewrite row_maps_snoc, elem_of_app, list_elem_of_singleton.
    destruct (decide (row_key x = k)) as [<-|Hne].
    + rewrite lookup_insert_eq. split.
      * intros [= <-]. auto.
      * intros [[Hin | ->] Hk]; [|done].
        exfalso. apply (Hdisj (row_key x)).
        -- rewrite <- Hk. by apply list_elem_of_fmap_2.
        -- apply list_elem_of_singleton. done.
    + rewrite lookup_insert_ne by done. rewrite (IH Hnd). split.
      * intros [? ?]. auto.
      * intros [[Hin | ->] Hk]; [done | congruence].
Qed.

Lemma rows_of_elem ks t row :
  row ∈ rows_of ks t ↔ row_key row ∈ ks ∧ t !! row_key row = Some (cells row).
Proof.
  unfold rows_of. rewrite list_elem_of_omap. split.
  - intros (k & Hk & Hrow). destruct (t !! k) as [c|] eqn:Hc; simplify_eq/=.
    done.
  - intros [Hk Hc]. exists (row_key row). split; [done|].
    rewrite Hc. by destruct row.
Qed.

Lemma rows_of_keys_sublist ks t : row_key <$> rows_of ks t `sublist_of` ks.
Proof.
  induction ks as [|k ks IH]; simpl; [done|].
  unfold rows_of in *. simpl. destruct (t !! k); simpl.
  - by apply sublist_skip.
  - by apply sublist_cons.
Qed.

Lemma rows_of_NoDup ks t : NoDup ks → NoDup (row_key <$> rows_of ks t).
Proof. intros H. exact (sublist_NoDup _ _ H (rows_of_keys_sublist ks t)). Qed.

(** What [amget] finds under a requested key, whatever the order of the
    rows in the response. *)
Lemma row_maps_response c ks t k :
  faithful c → k ∈ ks →
  row_maps (read_order c (rows_of (remove_dups ks) t)) !! k = mkRow k <$> t !! k.
Proof.
  intros Hc Hk.
  assert (Hnd : NoDup (row_key <$> read_order c (rows_of (remove_dups ks) t))).
  { rewrite (Hc _). apply rows_of_NoDup, NoDup_remove_dups. }
  destruct (t !! k) as [cs|] eqn:Ht; simpl.
  - apply (row_maps_lookup _ _ _ Hnd). split; [|done].
    rewrite (Hc _). apply rows_of_elem. simpl.
    split; [by apply elem_of_remove_dups | done].
  - destruct (row_maps _ !! k) as [row|] eqn:Hrow; [|done].
    apply (row_maps_lookup _ _ _ Hnd) in Hrow as [Hin <-].
    rewrite (Hc _) in Hin. apply rows_of_elem in Hin as [_ Hin]. congruence.
Qed.

End RowMaps.

Section Reads.

Import AsyncBigtableByteStore.

Lemma amget_loop_spec self maps row_keys results :
  Text.is_text (value_column_qualifier self) = true →
  amget_loop self maps row_keys results =
    Ok (results ++ ((λ k, maps !! k ≫= λ row, first_value self (cells row)) <$> row_keys)).
Proof.
  intros Hq. revert results.
  induction row_keys as [|k ks IH]; intros results; simpl.
  - by rewrite app_nil_r.
  - destruct (maps !! k) as [row|]; simpl.
    + rewrite (encode_text _ Hq). unfold first_value.
      destruct (column _ _ _); rewrite IH, <- app_assoc; done.
    + rewrite IH, <- app_assoc. done.
Qed.

(** [amget] on a non-empty list of keys: one read call, the table left as
    it was, and for each key what the table holds for it. *)
Lemma amget_spec self keys r :
  keys ≠ [] →
  all_text keys = true →
  Text.is_text (value_column_qualifier self) = true →
  faithful (th_client (table self)) →
  amget self keys r =
    (Ok (stored self (contents r) <$> keys),
     mkRemote (contents r) (calls r ++ [ReadRows (utf8 <$> keys)])).
Proof.
  intros Hne Hks Hq Hc. unfold amget.
  destruct keys as [|k0 keys0]; [done|]. set (keys := k0 :: keys0) in *.
  rewrite (bind_ok _ _ r (utf8 <$> keys) r)
    by (unfold lift; by rewrite (encode_all_text _ Hks)).
  rewrite (bind_ok _ _ _ _ _ (read_rows_run _ _ _)).
  unfold lift. rewrite (amget_loop_spec _ _ _ _ Hq).
  rewrite app_nil_l. f_equal. f_equal.
  rewrite <- list_fmap_compose. apply Forall_fmap_ext, Forall_forall.
  intros k Hk. cbn [compose contents].
  rewrite row_maps_response; [|done|].
  - unfold stored. by destruct (contents r !! utf8 k).
  - by apply list_elem_of_fmap_2.
Qed.

End Reads.

Section Writes.

Import AsyncBigtableByteStore.

Lemma amset_loop_spec self kv_pairs mutations :
  all_text kv_pairs.*1 = true →
  Text.is_text (value_column_qualifier self) = true →
  amset_loop self kv_pairs mutations = Ok (mutations ++ (set_mutation self <$> kv_pairs)).
Proof.
  intros Hks Hq. revert mutations.
  induction kv_pairs as [|[k v] kvs IH]; intros mutations; simpl.
  - by rewrite app_nil_r.
  - simpl in Hks. apply all_text_cons in Hks as [Hk Hks].
    rewrite (encode_text _ Hk), (encode_text _ Hq), (IH Hks), <- app_assoc.
    done.
Qed.

Lemma amdelete_loop_spec keys mutations :
  all_text keys = true →
  amdelete_loop keys mutations = Ok (mutations ++ (delete_mutation <$> keys)).
Proof.
  intros Hks. revert mutations.
  induction keys as [|k ks IH]; intros mutations; simpl.
  - by rewrite app_nil_r.
  - apply all_text_cons in Hks as [Hk Hks].
    rewrite (encode_text _ Hk), (IH Hks), <- app_assoc. done.
Qed.

Lemma amset_spec self kv_pairs r :
  kv_pairs ≠ [] →
  all_text kv_pairs.*1 = true →
  Text.is_text (value_column_qualifier self) = true →
  amset self kv_pairs r =
    (Ok (),
     mkRemote (foldl apply_mutation (contents r) (set_mutation self <$> kv_pairs))
       (calls r ++ [MutateRows (set_mutation self <$> kv_pairs)])).
Proof.
  intros Hne Hks Hq. unfold amset.
  rewrite (bind_ok _ _ r (set_mutation self <$> kv_pairs) r)
    by (unfold lift; by rewrite (amset_loop_spec _ _ _ Hks Hq)).
  destruct kv_pairs; [done|]. apply mutate_rows_run.
Qed.

Lemma amdelete_spec self keys r :
  keys ≠ [] →
  all_text keys = true →
  amdelete self keys r =
    (Ok (),
     mkRemote (foldl apply_mutation (contents r) (delete_mutation <$> keys))
       (calls r ++ [MutateRows (delete_mutation <$> keys)])).
Proof.
  intros Hne Hks. unfold amdelete.
  rewrite (bind_ok _ _ r (delete_mutation <$> keys) r)
    by (unfold lift; by rewrite (amdelete_loop_spec _ _ Hks)).
  destruct keys; [done|]. apply mutate_rows_run.
Qed.

Lemma column_insert (row : Cells) f q (cs : list Cell) :
  column (<[f := <[q := cs]> (default ∅ (row !! f))]> row) f q = cs.
Proof. unfold column. rewrite lookup_insert_eq. simpl. by rewrite lookup_insert_eq. Qed.

(** A set-cell mutation puts its value in front of the column. *)
Lemma stored_set_eq self tb k v :
  stored self (apply_mutation tb (set_mutation self (k, v))) k = Some v.
Proof.
  unfold stored, apply_mutation, set_mutation. simpl.
  rewrite lookup_insert_eq. unfold first_value. by rewrite column_insert.
Qed.

Lemma stored_set_ne self tb k k' v :
  utf8 k ≠ utf8 k' →
  stored self (apply_mutation tb (set_mutation self (k, v))) k' = stored self tb k'.
Proof.
  intros Hne. unfold stored, apply_mutation, set_mutation. simpl.
  by rewrite lookup_insert_ne.
Qed.

Lemma stored_set_others self tb kvs k :
  all_text kvs.*1 = true → Text.is_text k = true → k ∉ kvs.*1 →
  stored self (foldl apply_mutation tb (set_mutation self <$> kvs)) k = stored self tb k.
Proof.
  revert tb. induction kvs as [|[k0 v0] kvs IH]; intros tb Hks Hk Hnin; [done|].
  simpl in *. apply all_text_cons in Hks as [Hk0 Hks].
  apply not_elem_of_cons in Hnin as [Hne Hnin].
  rewrite (IH _ Hks Hk Hnin). apply stored_set_ne.
  intros Heq. apply Hne. symmetry. by apply utf8_inj.
Qed.

(** After a batch of writes under pairwise distinct keys, each key holds
    the value written with it. *)
Lemma stored_after_sets self tb kvs k v :
  NoDup kvs.*1 → all_text kvs.*1 = true → (k, v) ∈ kvs →
  stored self (foldl apply_mutation tb (set_mutation self <$> kvs)) k = Some v.
Proof.
  revert tb. induction kvs as [|[k0 v0] kvs IH]; intros tb Hnd Hks Hin.
  - by apply elem_of_nil in Hin.
  - simpl in *. apply NoDup_cons in Hnd as [Hnin Hnd].
    apply all_text_cons in Hks as [Hk0 Hks].
    apply elem_of_cons in Hin as [[= -> ->] | Hin].
    + rewrite stored_set_others by done. apply stored_set_eq.
    + by apply IH.
Qed.

Lemma apply_delete_mutation tb k :
  apply_mutation tb (delete_mutation k) = delete (utf8 k) tb.
Proof. reflexivity. Qed.

End Writes.

(** ** Key enumeration *)

Section Enumeration.

Import AsyncBigtableByteStore.

Lemma is_text_app s1 s2 :
  Text.is_text (s1 ++ s2) = true ↔ Text.is_text s1 = true ∧ Text.is_text s2 = true.
Proof. unfold Text.is_text. rewrite forallb_app. apply andb_true_iff. Qed.

Lemma is_text_successor p :
  p ≠ [] → Text.is_text p = true → has_successor p = true →
  Text.is_text (successor p) = true ∧ end_key p = Ok (successor p).
Proof.
  intros Hne Hp Hs.
  rewrite (app_removelast_last 0 Hne) in Hp.
  apply is_text_app in Hp as [Hinit Hlast].
  unfold has_successor in Hs. unfold successor, end_key, Text.chr, Text.ord.
  simpl in Hlast. rewrite andb_true_r in Hlast. unfold Text.scalar in Hlast.
  set (c := List.last p 0) in *.
  assert (Hc : Text.scalar (c + 1) = true) by (unfold Text.scalar; lia).
  split.
  - apply is_text_app. split; [done|]. simpl. by rewrite Hc.
  - assert ((0 <=? c + 1) && (c + 1 <? 0x110000) = true) as -> by lia.
    done.
Qed.

End Enumeration.

Lemma backwards_faithful : faithful backwards_client.
Proof. intros l. simpl. symmetry. apply Permutation_rev. Qed.

(** ** The byte-store operations of the async core *)

Section CoreProperties.

Import AsyncBigtableByteStore.

(** C1. Writing pairs under pairwise distinct keys with [amset] and then
    reading with [amget] any list of those keys returns, position by
    position and in the order queried, exactly the value written with each
    key.  Keys and the column qualifier are Unicode text, the strings that
    [encode] accepts; the client may hand back rows in any order. *)
Theorem amset_then_amget self kv_pairs query r :
  NoDup kv_pairs.*1 →
  all_text kv_pairs.*1 = true →
  Text.is_text (value_column_qualifier self) = true →
  faithful (th_client (table self)) →
  (∀ k, k ∈ query → k ∈ kv_pairs.*1) →
  ∃ r1 r2 values,
    amset self kv_pairs r = (Ok (), r1) ∧
    amget self query r1 = (Ok values, r2) ∧
    length values = length query ∧
    (∀ i k, query !! i = Some k →
       ∃ v, (k, v) ∈ kv_pairs ∧ values !! i = Some (Some v)) ∧
    (query = kv_pairs.*1 → values = Some <$> kv_pairs.*2).
Proof.
  intros Hnd Hks Hq Hc Hsub.
  destruct kv_pairs as [|kv kvs].
  { destruct query as [|k query].
    - exists r, r, []. repeat split; try done.
    - exfalso. specialize (Hsub k (list_elem_of_here _ _)).
      by apply elem_of_nil in Hsub. }
  set (kv_pairs := kv :: kvs) in *.
  assert (Hval : ∀ k, k ∈ kv_pairs.*1 →
            ∃ v, (k, v) ∈ kv_pairs ∧
              stored self (foldl apply_mutation (contents r)
                             (set_mutation self <$> kv_pairs)) k = Some v).
  { intros k ([k' v] & -> & Hin)%list_elem_of_fmap. exists v. split; [done|].
    by apply stored_after_sets. }
  destruct query as [|k0 query0].
  { eexists _, _, []. split; [by apply amset_spec|]. repeat split; try done. }
  set (query := k0 :: query0) in *.
  assert (Hqt : all_text query = true).
  { apply forallb_forall. intros k Hk%list_elem_of_In.
    eapply all_text_elem; [exact Hks | by apply Hsub]. }
  eexists _, _, _. split; [by apply amset_spec|].
  split; [by apply amget_spec|]. cbn [contents].
  split; [by rewrite length_fmap|]. split.
  - intros i k Hi. rewrite list_lookup_fmap, Hi.
    destruct (Hval k) as (v & Hin & Hv).
    { apply Hsub. by eapply list_elem_of_lookup_2. }
    exists v. split; [done|]. simpl. f_equal. exact Hv.
  - intros ->. rewrite <- !list_fmap_compose.
    apply Forall_fmap_ext, Forall_forall. intros [k v] Hin.
    unfold compose. cbn [fst snd]. by apply stored_after_sets.
Qed.

(** C2. On a non-empty list of keys [amget] issues exactly one batched row
    read and returns one result per key, in input order: the value of the
    first, most recent cell when the row exists and the configured column
    has a cell, [None] when the row is absent or lacks the column.  The
    result does not depend on the order in which the client hands back
    the rows, and equal keys receive equal results. *)
Theorem amget_one_read_in_order self keys r :
  keys ≠ [] →
  all_text keys = true →
  Text.is_text (value_column_qualifier self) = true →
  faithful (th_client (table self)) →
  ∃ results r',
    amget self keys r = (Ok results, r') ∧
    calls r' = calls r ++ [ReadRows (utf8 <$> keys)] ∧
    contents r' = contents r ∧
    length results = length keys ∧
    (∀ i k, keys !! i = Some k →
       results !! i = Some
         match contents r !! utf8 k with
         | Some cs =>
             match column cs (value_column_family self)
                     (utf8 (value_column_qualifier self)) with
             | c :: _ => Some (value c)
             | [] => None
             end
         | None => None
         end) ∧
    (∀ i j k, keys !! i = Some k → keys !! j = Some k →
       results !! i = results !! j).
Proof.
  intros Hne Hks Hq Hc.
  eexists _, _. split; [by apply amget_spec|]. cbn [calls contents].
  split; [done|]. split; [done|]. split; [by rewrite length_fmap|]. split.
  - intros i k Hi. by rewrite list_lookup_fmap, Hi.
  - intros i j k Hi Hj. by rewrite !list_lookup_fmap, Hi, Hj.
Qed.

(** C3. On the empty list [amget] returns the empty list, and none of
    [amget], [amset] and [amdelete] reaches the client: the table and the
    log of client calls are left as they were. *)
Theorem empty_input_no_call self r :
  amget self [] r = (Ok [], r) ∧
  amset self [] r = (Ok (), r) ∧
  amdelete self [] r = (Ok (), r).
Proof. repeat split. Qed.

(** C4. [amdelete] on one key issues one delete-row mutation, which removes
    the whole row whatever its columns and leaves the other rows alone,
    and an [amget] on that key afterwards returns [None], whether or not
    the key was ever written. *)
Theorem amdelete_then_amget self k r :
  Text.is_text k = true →
  faithful (th_client (table self)) →
  ∃ r1 r2,
    amdelete self [k] r = (Ok (), r1) ∧
    calls r1 = calls r ++ [MutateRows [mkDirectRow (utf8 k) [DeleteRow]]] ∧
    contents r1 = delete (utf8 k) (contents r) ∧
    contents r1 !! utf8 k = None ∧
    amget self [k] r1 = (Ok [None], r2).
Proof.
  intros Hk Hc.
  assert (Hks : all_text [k] = true) by (unfold all_text; simpl; by rewrite Hk).
  eexists _, _.
  split; [by apply amdelete_spec|]. cbn [calls contents fmap list_fmap foldl].
  rewrite apply_delete_mutation.
  split; [done|]. split; [done|]. split; [apply lookup_delete_eq|].
  unfold amget.
  rewrite (bind_ok _ _ _ [utf8 k] _)
    by (unfold lift; by rewrite (encode_all_text _ Hks)).
  rewrite (bind_ok _ _ _ _ _ (read_rows_run _ _ _)).
  unfold lift. cbn [amget_loop contents].
  rewrite row_maps_response; [|done|apply list_elem_of_here].
  rewrite lookup_delete_eq. reflexivity.
Qed.

End CoreProperties.

Section EnumerationProperties.

Import AsyncBigtableByteStore.

(** C5, evaluated on the code.  [ayield_keys] never yields a key and never
    reaches the client.  Without a prefix, or with the empty one, it stops
    at [StripValueFilter()], a name the module never imports.  With a
    non-empty prefix it computes the end key, where [chr] raises for a last
    code point U+10FFFF, and then stops at [RowSet()], which the module
    never imports either.  So over the keys ab1, ab2, ac1 and b1 the prefix
    ab yields nothing, though the table holds the rows ab1 and ab2. *)
Theorem ayield_keys_never_yields :
  (∀ self r,
     ayield_keys self None r = (([], Some (NameError "StripValueFilter")), r)) ∧
  (∀ self r,
     ayield_keys self (Some []) r = (([], Some (NameError "StripValueFilter")), r)) ∧
  (∀ self c p r,
     ayield_keys self (Some (c :: p)) r
     = (([], Some (if (0 <=? List.last (c :: p) 0 + 1)
                      && (List.last (c :: p) 0 + 1 <? 0x110000)
                   then NameError "RowSet"
                   else ValueError "chr() arg not in range(0x110000)")), r)) ∧
  (contents demo_remote !! utf8 (Text.of_string "ab1") ≠ None ∧
   contents demo_remote !! utf8 (Text.of_string "ab2") ≠ None ∧
   ayield_keys demo_store (Some (Text.of_string "ab")) demo_remote
   = (([], Some (NameError "RowSet")), demo_remote)).
Proof.
  split; [reflexivity|]. split; [reflexivity|]. split.
  - intros self c p r. unfold ayield_keys, scan, end_key, Text.chr, Text.ord.
    destruct ((0 <=? List.last (c :: p) 0 + 1)
              && (List.last (c :: p) 0 + 1 <? 0x110000)); reflexivity.
  - split; [vm_compute; discriminate|]. split; [vm_compute; discriminate|].
    vm_compute. reflexivity.
Qed.

End EnumerationProperties.

(** ** The facade *)

Lemma bind_ret_r {A} (m : M A) r : bind m ret r = m r.
Proof. unfold bind, ret. by destruct (m r) as [[a|e] r']. Qed.

Lemma engine_entry_sync self r :
  BigtableByteStore.engine_entry self "_run_as_sync" r = (Ok RunAsSync, r).
Proof. reflexivity. Qed.

Lemma engine_entry_async self r :
  BigtableByteStore.engine_entry self "_run_as_async" r = (Ok RunAsAsync, r).
Proof. reflexivity. Qed.

Section FacadeProperties.

Variable get_async_data_client : option string → BigtableDataClientAsync.
Variable sync_initialize : BigtableDataClientAsync → result BigtableEngine.

Let create_sync := BigtableByteStore.create_sync get_async_data_client sync_initialize.
Let create := BigtableByteStore.create get_async_data_client sync_initialize.

(** C6, evaluated on the code.  Given both an engine and a client,
    [create_sync] raises the [ValueError] that stands for the
    ConfigurationError and builds no store.  [create] has no such guard: it
    goes on exactly as it does when no client is given, and what it raises
    is the [TypeError] of instantiating the class, not a
    ConfigurationError. *)
Theorem factories_given_engine_and_client
    instance_id table_id e c project_id family qualifier app_profile_id r :
  create_sync instance_id table_id (Some e) (Some c) project_id family qualifier
    app_profile_id r
  = (Raise (ValueError "Cannot provide both 'engine' and 'async_data_client'."), r) ∧
  create instance_id table_id (Some e) (Some c) project_id family qualifier
    app_profile_id r
  = create instance_id table_id (Some e) None project_id family qualifier
      app_profile_id r ∧
  ∃ msg,
    create instance_id table_id (Some e) (Some c) project_id family qualifier
      app_profile_id r
    = (Raise (TypeError_ msg), r).
Proof. split; [reflexivity|]. split; [reflexivity|]. eexists. reflexivity. Qed.

(** C7, evaluated on the code.  [create_sync] never returns a store: where
    it does not raise earlier, it looks up [__run_as_sync] on the engine, a
    private name that the class body mangles into
    [_BigtableByteStore__run_as_sync], which no engine has. *)
Theorem create_sync_never_returns
    instance_id table_id engine async_data_client project_id family qualifier
    app_profile_id r :
  (∃ e, create_sync instance_id table_id engine async_data_client project_id
          family qualifier app_profile_id r = (Raise e, r)) ∧
  (∀ e, create_sync instance_id table_id (Some e) None project_id
          family qualifier app_profile_id r
        = (Raise (AttributeError "_BigtableByteStore__run_as_sync"), r)).
Proof.
  split; [|reflexivity].
  unfold create_sync, BigtableByteStore.create_sync.
  destruct engine as [e|], async_data_client as [c|]; try (eexists; reflexivity).
  - unfold bind, lift, BigtableByteStore.engine_or_default.
    destruct (sync_initialize c) as [e|err]; eexists; reflexivity.
  - unfold bind, lift, BigtableByteStore.engine_or_default.
    destruct (sync_initialize _) as [e|err]; eexists; reflexivity.
Qed.

End FacadeProperties.

(** C8, evaluated on the code.  Get and set have a blocking and a suspending
    entry point each, and each of the four goes through the Engine: the
    blocking ones through "run synchronously", the suspending ones through
    "run asynchronously".  Delete and key enumeration have no entry point of
    either kind. *)
Theorem facade_entry_points :
  BigtableByteStore.exposes BigtableByteStore.Blocking BigtableByteStore.Get = true ∧
  BigtableByteStore.exposes BigtableByteStore.Suspending BigtableByteStore.Get = true ∧
  BigtableByteStore.exposes BigtableByteStore.Blocking BigtableByteStore.Set_ = true ∧
  BigtableByteStore.exposes BigtableByteStore.Suspending BigtableByteStore.Set_ = true ∧
  (∀ k, BigtableByteStore.exposes k BigtableByteStore.Delete = false) ∧
  (∀ k, BigtableByteStore.exposes k BigtableByteStore.YieldKeys = false) ∧
  (∀ self keys r,
     BigtableByteStore.mget self keys r
     = dispatch RunAsSync
         (AsyncBigtableByteStore.amget (BigtableByteStore.__async_store self) keys) r) ∧
  (∀ self kv_pairs r,
     BigtableByteStore.mset self kv_pairs r
     = dispatch RunAsSync
         (AsyncBigtableByteStore.amset (BigtableByteStore.__async_store self) kv_pairs) r).
Proof.
  repeat split; try reflexivity; by intros [].
Qed.

(** C10. The suspending read of the facade awaits the awaitable of the
    "run asynchronously" dispatch: when it completes, the read of the async
    core has run.  The suspending write returns that awaitable without
    awaiting it: when it completes, nothing has reached the client and the
    table is as before; the write of the async core runs only when the
    returned awaitable is awaited. *)
Theorem facade_amget_awaits_amset_does_not :
  (∀ self keys r,
     BigtableByteStore.amget self keys r
     = dispatch RunAsAsync
         (AsyncBigtableByteStore.amget (BigtableByteStore.__async_store self) keys) r) ∧
  (∀ self kv_pairs r,
     BigtableByteStore.amset self kv_pairs r
     = (Ok (dispatch RunAsAsync
              (AsyncBigtableByteStore.amset (BigtableByteStore.__async_store self) kv_pairs)),
        r)) ∧
  (∃ pending r',
     BigtableByteStore.amset demo_facade demo_pairs empty_remote = (Ok pending, empty_remote) ∧
     (AsyncBigtableByteStore.amget demo_store [Text.of_string "ab1"] empty_remote).1
       = Ok [None] ∧
     pending empty_remote = (Ok (), r') ∧
     calls r' = [MutateRows (set_mutation demo_store <$> demo_pairs)] ∧
     (AsyncBigtableByteStore.amget demo_store [Text.of_string "ab1"] r').1
       = Ok [Some [1]]).
Proof.
  split; [|split].
  - intros self keys r. unfold BigtableByteStore.amget.
    rewrite (bind_ok _ _ _ _ _ (engine_entry_async self r)).
    apply bind_ret_r.
  - intros self kv_pairs r. unfold BigtableByteStore.amset.
    rewrite (bind_ok _ _ _ _ _ (engine_entry_async self r)). reflexivity.
  - eexists _, _. split; [reflexivity|].
    split; [vm_compute; reflexivity|].
    split; [vm_compute; reflexivity|].
    split; vm_compute; reflexivity.
Qed.

(** ** Further properties of the two modules *)

Section CodecOrder.
Import Text.

Lemma ltb_asym a b : ltb a b = true → ltb b a = false.
Proof.
  revert b. induction a as [|x a IH]; intros [|y b]; simpl; try done.
  intros H. apply orb_true_iff in H as [H|[H1 H2]%andb_true_iff].
  - apply Z.ltb_lt in H.
    assert ((y <? x) = false) as -> by lia. assert ((y =? x) = false) as -> by lia. done.
  - apply Z.eqb_eq in H1. subst. rewrite Z.ltb_irrefl, Z.eqb_refl. simpl. by apply IH.
Qed.

Lemma ltb_app_same b x y : ltb (b ++ x) (b ++ y) = ltb x y.
Proof.
  induction b as [|c b IH]; [done|]. simpl.
  by rewrite Z.ltb_irrefl, Z.eqb_refl, IH.
Qed.

Lemma encode_char_order d c bd bc x y :
  encode_char d = Some bd → encode_char c = Some bc → d < c →
  ltb (bd ++ x) (bc ++ y) = true.
Proof.
  unfold encode_char.
  destruct (scalar d) eqn:Hd; simpl; [|done].
  destruct (scalar c) eqn:Hc; simpl; [|done].
  unfold scalar in Hd, Hc.
  intros H1 H2 Hlt.
  repeat match type of H1 with
         | context [?a <? ?b] => destruct (Z.ltb_spec a b)
         end;
  repeat match type of H2 with
         | context [?a <? ?b] => destruct (Z.ltb_spec a b)
         end;
  injection H1 as <-; injection H2 as <-; simpl;
  rewrite ?orb_true_iff, ?andb_true_iff, ?Z.ltb_lt, ?Z.eqb_eq;
  try lia.
  all: Z.to_euclidean_division_equations; lia.
Qed.


Lemma encode_char_nonempty c b : encode_char c = Some b → b ≠ [].
Proof. unfold encode_char. repeat case_match; intros [= <-]; done. Qed.

Lemma encode_opt_cons c s :
  encode_opt (c :: s) =
    match encode_char c, encode_opt s with
    | Some b, Some bs => Some (b ++ bs)
    | _, _ => None
    end.
Proof. reflexivity. Qed.

(** Encoding undoes decoding: the decoder accepts canonical forms only. *)
Lemma encode_decode_opt b s : decode_opt b = Some s → encode_opt s = Some b.
Proof.
  remember (length b) as n eqn:Hn. revert b s Hn.
  induction n as [n IH] using lt_wf_ind. intros b s Hn.
  destruct b as [|b0 t0]; [by intros [= <-]|]. simpl in Hn.
  cbn [decode_opt].
  destruct ((0 <=? b0) && (b0 <? 0x80)) eqn:H1.
  { destruct (decode_opt t0) as [s'|] eqn:Hs'; [|done]. intros [= <-].
    rewrite encode_opt_cons, (IH (length t0) ltac:(lia) t0 s' eq_refl Hs').
    unfold encode_char, scalar.
    assert (Hb : 0 ≤ b0 < 0x80) by lia.
    repeat (match goal with
            | |- context [?a <=? ?b] => destruct (Z.leb_spec a b)
            | |- context [?a <? ?b] => destruct (Z.ltb_spec a b)
            end; simpl; try lia). done. }
  destruct ((0xC2 <=? b0) && (b0 <? 0xE0)) eqn:H2.
  { destruct t0 as [|b1 t1]; [done|]. unfold cont.
    destruct ((0x80 <=? b1) && (b1 <? 0xC0)) eqn:Hc1; [|done].
    destruct (decode_opt t1) as [s'|] eqn:Hs'; [|done]. intros [= <-].
    simpl in Hn.
    rewrite encode_opt_cons, (IH (length t1) ltac:(lia) t1 s' eq_refl Hs').
    unfold encode_char, scalar.
    set (c := (b0 - 0xC0) * 64 + (b1 - 0x80)).
    assert (Hb : 0x80 ≤ c < 0x800 ∧ c / 64 = b0 - 0xC0 ∧ c mod 64 = b1 - 0x80).
    { unfold c. split; [lia|]. Z.to_euclidean_division_equations. lia. }
    destruct Hb as (Hb & -> & ->).
    repeat (match goal with
            | |- context [?a <=? ?b] => destruct (Z.leb_spec a b)
            | |- context [?a <? ?b] => destruct (Z.ltb_spec a b)
            end; simpl; try lia).
    replace (0xC0 + (b0 - 0xC0)) with b0 by lia.
    replace (0x80 + (b1 - 0x80)) with b1 by lia. done. }
  destruct ((0xE0 <=? b0) && (b0 <? 0xF0)) eqn:H3.
  { destruct t0 as [|b1 [|b2 t2]]; [done|done|]. unfold cont.
    set (c := (b0 - 0xE0) * 4096 + (b1 - 0x80) * 64 + (b2 - 0x80)).
    destruct ((0x80 <=? b1) && (b1 <? 0xC0) && ((0x80 <=? b2) && (b2 <? 0xC0))
              && (0x800 <=? c) && scalar c) eqn:Hc1; [|done].
    destruct (decode_opt t2) as [s'|] eqn:Hs'; [|done]. intros [= <-].
    simpl in Hn.
    rewrite encode_opt_cons, (IH (length t2) ltac:(lia) t2 s' eq_refl Hs').
    unfold encode_char.
    apply andb_true_iff in Hc1 as [Hc1 Hsc]. rewrite Hsc. simpl.
    assert (Hb : 0x800 ≤ c < 0x10000 ∧ c / 4096 = b0 - 0xE0
                 ∧ (c / 64) mod 64 = b1 - 0x80 ∧ c mod 64 = b2 - 0x80).
    { unfold c in *. split; [lia|]. Z.to_euclidean_division_equations. lia. }
    destruct Hb as (Hb & -> & -> & ->).
    repeat (match goal with
            | |- context [?a <=? ?b] => destruct (Z.leb_spec a b)
            | |- context [?a <? ?b] => destruct (Z.ltb_spec a b)
            end; simpl; try lia).
    replace (0xE0 + (b0 - 0xE0)) with b0 by lia.
    replace (0x80 + (b1 - 0x80)) with b1 by lia.
    replace (0x80 + (b2 - 0x80)) with b2 by lia. done. }
  destruct ((0xF0 <=? b0) && (b0 <? 0xF5)) eqn:H4; [|done].
  destruct t0 as [|b1 [|b2 [|b3 t3]]]; [done|done|done|]. unfold cont.
  set (c := (b0 - 0xF0) * 262144 + (b1 - 0x80) * 4096 + (b2 - 0x80) * 64 + (b3 - 0x80)).
  destruct ((0x80 <=? b1) && (b1 <? 0xC0) && ((0x80 <=? b2) && (b2 <? 0xC0))
            && ((0x80 <=? b3) && (b3 <? 0xC0))
            && (0x10000 <=? c) && scalar c) eqn:Hc1; [|done].
  destruct (decode_opt t3) as [s'|] eqn:Hs'; [|done]. intros [= <-].
  simpl in Hn.
  rewrite encode_opt_cons, (IH (length t3) ltac:(lia) t3 s' eq_refl Hs').
  unfold encode_char.
  apply andb_true_iff in Hc1 as [Hc1 Hsc]. rewrite Hsc. simpl.
  assert (Hb : 0x10000 ≤ c ∧ c / 262144 = b0 - 0xF0
               ∧ (c / 4096) mod 64 = b1 - 0x80
               ∧ (c / 64) mod 64 = b2 - 0x80 ∧ c mod 64 = b3 - 0x80).
  { unfold c in *. split; [lia|]. Z.to_euclidean_division_equations. lia. }
  destruct Hb as (Hb & -> & -> & -> & ->).
  repeat (match goal with
          | |- context [?a <=? ?b] => destruct (Z.leb_spec a b)
          | |- context [?a <? ?b] => destruct (Z.ltb_spec a b)
          end; simpl; try lia).
  replace (0xF0 + (b0 - 0xF0)) with b0 by lia.
  replace (0x80 + (b1 - 0x80)) with b1 by lia.
  replace (0x80 + (b2 - 0x80)) with b2 by lia.
  replace (0x80 + (b3 - 0x80)) with b3 by lia. done.
Qed.


Lemma utf8_cons c t :
  is_text (c :: t) = true →
  ∃ bc, encode_char c = Some bc ∧ utf8 (c :: t) = bc ++ utf8 t.
Proof.
  intros [b Hb]%encode_opt_is_text. unfold utf8. rewrite Hb.
  rewrite encode_opt_cons in Hb.
  destruct (encode_char c) as [bc|]; [|done].
  destruct (encode_opt t) as [bt|]; [|done].
  injection Hb as <-. by exists bc.
Qed.

Lemma is_text_cons c t : is_text (c :: t) = true ↔ scalar c = true ∧ is_text t = true.
Proof. unfold is_text. simpl. apply andb_true_iff. Qed.

(** UTF-8 keeps the order of texts: byte strings compare as the code point
    sequences they encode. *)
Lemma utf8_order s1 s2 :
  is_text s1 = true → is_text s2 = true →
  ltb (utf8 s1) (utf8 s2) = ltb s1 s2.
Proof.
  revert s2. induction s1 as [|c1 t1 IH]; intros [|c2 t2] H1 H2.
  - done.
  - destruct (utf8_cons _ _ H2) as (b2 & Hb2 & ->).
    apply encode_char_nonempty in Hb2. by destruct b2.
  - destruct (utf8_cons _ _ H1) as (b1 & Hb1 & ->).
    change (utf8 []) with (@nil Z). simpl. by destruct (b1 ++ utf8 t1).
  - destruct (utf8_cons _ _ H1) as (b1 & Hb1 & ->).
    destruct (utf8_cons _ _ H2) as (b2 & Hb2 & ->).
    apply is_text_cons in H1 as [_ H1]. apply is_text_cons in H2 as [_ H2].
    cbn [ltb]. destruct (Z.lt_total c1 c2) as [Hlt|[->|Hgt]].
    + rewrite (encode_char_order _ _ _ _ _ _ Hb1 Hb2 Hlt).
      assert ((c1 <? c2) = true) as -> by lia. done.
    + rewrite Hb1 in Hb2. injection Hb2 as <-.
      rewrite ltb_app_same, Z.ltb_irrefl, Z.eqb_refl. simpl. by apply IH.
    + rewrite (ltb_asym _ _ (encode_char_order _ _ _ _ _ _ Hb2 Hb1 Hgt)).
      assert ((c1 <? c2) = false) as -> by lia.
      assert ((c1 =? c2) = false) as -> by lia. done.
Qed.

Lemma successor_cons c p : p ≠ [] → successor (c :: p) = c :: successor p.
Proof. intros Hp. unfold successor. by destruct p. Qed.

(** A sequence lies between a non-empty sequence and its successor exactly
    when it starts with that sequence. *)
Lemma between_successor p s :
  p ≠ [] → between p (successor p) s = starts_with p s.
Proof.
  unfold between, leb. revert s. induction p as [|c p IH]; intros s Hp; [done|].
  destruct p as [|c' p'].
  - unfold successor. simpl. destruct s as [|d t]; [done|]. simpl.
    assert (ltb t [] = false) as -> by (by destruct t).
    rewrite !andb_false_r, !orb_false_r.
    destruct (Z.ltb_spec d c), (Z.ltb_spec d (c + 1)), (Z.eqb_spec c d); simpl; lia.
  - rewrite successor_cons by done. destruct s as [|d t]; [done|].
    cbn [ltb starts_with]. specialize (IH t ltac:(done)).
    destruct (Z.ltb_spec d c), (Z.eqb_spec d c), (Z.eqb_spec c d); simpl; try lia; done.
Qed.

(** On row keys that are UTF-8, the scanned range holds exactly the keys
    whose text starts with the prefix. *)
Lemma between_utf8 p k s :
  p ≠ [] → is_text p = true → is_text (successor p) = true →
  decode_opt k = Some s →
  between (utf8 p) (utf8 (successor p)) k = starts_with p s.
Proof.
  intros Hp Hpt Hst Hk. apply encode_decode_opt in Hk.
  assert (Hs : is_text s = true) by (apply encode_opt_is_text; eauto).
  assert (k = utf8 s) as -> by (unfold utf8; by rewrite Hk).
  rewrite <- between_successor by done. unfold between, leb.
  by rewrite !utf8_order.
Qed.

End CodecOrder.

Section MoreCore.
Import AsyncBigtableByteStore.

Lemma encode_not_text s : Text.is_text s = false → Text.encode s = Raise UnicodeEncodeError.
Proof.
  intros H. unfold Text.encode. destruct (Text.encode_opt s) as [b|] eqn:Hb; [|done].
  assert (Text.is_text s = true) by (apply encode_opt_is_text; eauto). congruence.
Qed.

Lemma encode_cases s :
  Text.encode s = Ok (utf8 s) ∧ Text.is_text s = true
  ∨ Text.encode s = Raise UnicodeEncodeError ∧ Text.is_text s = false.
Proof.
  destruct (Text.is_text s) eqn:H; [left|right]; split; auto using encode_text, encode_not_text.
Qed.

Lemma encode_all_fail keys :
  all_text keys = false → encode_all keys = Raise UnicodeEncodeError.
Proof.
  induction keys as [|k ks IH]; [done|]. unfold all_text. simpl.
  intros H. destruct (encode_cases k) as [[-> Hk]|[-> Hk]]; [|done].
  rewrite Hk in H. simpl in H. by rewrite (IH H).
Qed.

Lemma encode_all_length keys bs : encode_all keys = Ok bs → length bs = length keys.
Proof.
  revert bs. induction keys as [|k ks IH]; intros bs; simpl.
  - by intros [= <-].
  - destruct (Text.encode k); [|done]. destruct (encode_all ks) as [bs'|]; [|done].
    intros [= <-]. simpl. by rewrite (IH bs').
Qed.

Lemma amget_loop_length self maps ks acc res :
  amget_loop self maps ks acc = Ok res → length res = (length acc + length ks)%nat.
Proof.
  revert acc. induction ks as [|k ks IH]; intros acc; simpl.
  - intros [= <-]. lia.
  - destruct (maps !! k) as [row|].
    + destruct (Text.encode _); [|done].
      destruct (column _ _ _); intros H%IH; rewrite H, length_app; simpl; lia.
    + intros H%IH. rewrite H, length_app. simpl. lia.
Qed.

Lemma amget_loop_absent self maps ks acc :
  (∀ k, k ∈ ks → maps !! k = None) →
  amget_loop self maps ks acc = Ok (acc ++ replicate (length ks) None).
Proof.
  revert acc. induction ks as [|k ks IH]; intros acc Hnone; simpl.
  - by rewrite app_nil_r.
  - rewrite (Hnone k) by apply list_elem_of_here.
    rewrite IH, <- app_assoc; [done|].
    intros k' Hk'. apply Hnone. by apply list_elem_of_further.
Qed.

Lemma amset_loop_fail self kv acc :
  all_text kv.*1 = false → amset_loop self kv acc = Raise UnicodeEncodeError.
Proof.
  revert acc. induction kv as [|[k v] kvs IH]; intros acc; [done|].
  unfold all_text. simpl. intros H.
  destruct (encode_cases k) as [[-> Hk]|[-> Hk]]; [|done].
  rewrite Hk in H. simpl in H.
  destruct (encode_cases (value_column_qualifier self)) as [[-> _]|[-> _]]; [|done].
  by apply IH.
Qed.

Lemma amdelete_loop_fail keys acc :
  all_text keys = false → amdelete_loop keys acc = Raise UnicodeEncodeError.
Proof.
  revert acc. induction keys as [|k ks IH]; intros acc; [done|].
  unfold all_text. simpl. intros H.
  destruct (encode_cases k) as [[-> Hk]|[-> Hk]]; [|done].
  rewrite Hk in H. simpl in H. by apply IH.
Qed.

Lemma bind_lift_raise {A B} (x : result A) (f : A → M B) r e :
  x = Raise e → bind (lift x) f r = (Raise e, r).
Proof. intros ->. reflexivity. Qed.

Lemma bind_lift_ok {A B} (x : result A) (f : A → M B) r a :
  x = Ok a → bind (lift x) f r = f a r.
Proof. intros ->. reflexivity. Qed.

(** X4. A key that cannot be encoded makes each operation raise before it
    reaches the client: nothing is read, written or deleted. *)
Theorem unencodable_key_reaches_no_client self kv_pairs r :
  all_text kv_pairs.*1 = false →
  amset self kv_pairs r = (Raise UnicodeEncodeError, r) ∧
  amget self kv_pairs.*1 r = (Raise UnicodeEncodeError, r) ∧
  amdelete self kv_pairs.*1 r = (Raise UnicodeEncodeError, r).
Proof.
  intros H. split; [|split].
  - unfold amset. by rewrite (bind_lift_raise _ _ _ _ (amset_loop_fail self _ [] H)).
  - unfold amget. destruct (kv_pairs.*1) as [|k ks] eqn:Hk; [done|].
    by rewrite (bind_lift_raise _ _ _ _ (encode_all_fail _ H)).
  - unfold amdelete. by rewrite (bind_lift_raise _ _ _ _ (amdelete_loop_fail _ [] H)).
Qed.

(** X2. [amget] returns one result per key whenever it returns, whatever the
    client hands back. *)
Theorem amget_length self keys r results r' :
  amget self keys r = (Ok results, r') → length results = length keys.
Proof.
  unfold amget. destruct keys as [|k0 ks]; [by intros [= <- _]|].
  set (keys := k0 :: ks). unfold bind at 1, lift at 1.
  destruct (encode_all keys) as [bs|] eqn:Hbs; [|done].
  rewrite (bind_ok _ _ _ _ _ (read_rows_run _ _ _)). unfold lift.
  intros [= H _]. apply amget_loop_length in H. simpl in H.
  by rewrite H, (encode_all_length _ _ Hbs).
Qed.

(** X3. [amget] never writes: whatever the input and the outcome, it leaves
    the table as it was and adds at most one call, a read, to the log. *)
Theorem amget_never_writes self keys r :
  contents (amget self keys r).2 = contents r ∧
  ((amget self keys r).2 = r ∨
   ∃ ks, calls (amget self keys r).2 = calls r ++ [ReadRows ks]).
Proof.
  unfold amget. destruct keys as [|k0 ks]; [by auto|].
  set (keys := k0 :: ks). unfold bind at 1, lift at 1.
  destruct (encode_all keys) as [bs|]; [|by auto].
  rewrite (bind_ok _ _ _ _ _ (read_rows_run _ _ _)). unfold lift. simpl.
  split; [done|]. right. by eexists.
Qed.

Lemma amget_absent_run self keys r :
  all_text keys = true →
  faithful (th_client (table self)) →
  (∀ k, k ∈ keys → contents r !! utf8 k = None) →
  (amget self keys r).1 = Ok (replicate (length keys) None).
Proof.
  intros Hks Hc Habs. unfold amget. destruct keys as [|k0 ks]; [done|].
  set (keys := k0 :: ks) in *.
  rewrite (bind_lift_ok _ _ _ _ (encode_all_text _ Hks)).
  rewrite (bind_ok _ _ _ _ _ (read_rows_run _ _ _)). unfold lift. cbn [fst contents].
  rewrite amget_loop_absent; [by rewrite length_fmap|].
  intros kb Hkb. rewrite row_maps_response by done.
  apply list_elem_of_fmap in Hkb as (k & -> & Hk). by rewrite (Habs k Hk).
Qed.

(** X1. Keys without a row read as [None], each of them, whether or not the
    column qualifier can be encoded. *)
Theorem amget_absent_keys self keys r :
  all_text keys = true →
  faithful (th_client (table self)) →
  (∀ k, k ∈ keys → contents r !! utf8 k = None) →
  (amget self keys r).1 = Ok (replicate (length keys) None).
Proof.
  intros Hks Hc Habs. unfold amget. destruct keys as [|k0 ks]; [done|].
  set (keys := k0 :: ks) in *.
  rewrite (bind_lift_ok _ _ _ _ (encode_all_text _ Hks)).
  rewrite (bind_ok _ _ _ _ _ (read_rows_run _ _ _)). unfold lift. cbn [fst contents].
  rewrite amget_loop_absent; [by rewrite length_fmap|].
  intros kb Hkb. rewrite row_maps_response by done.
  apply list_elem_of_fmap in Hkb as (k & -> & Hk). by rewrite (Habs k Hk).
Qed.

End MoreCore.

Section MoreWrites.
Import AsyncBigtableByteStore.

Lemma elem_of_key_list (tb : Table) k : k ∈ key_list tb ↔ is_Some (tb !! k).
Proof.
  unfold key_list. rewrite list_elem_of_fmap. split.
  - intros ([k' v] & -> & H%elem_of_map_to_list). simpl. eauto.
  - intros [v Hv]. exists (k, v). split; [done|]. by apply elem_of_map_to_list.
Qed.

Lemma NoDup_key_list (tb : Table) : NoDup (key_list tb).
Proof. apply NoDup_fst_map_to_list. Qed.

Lemma utf8_keys_spec (tb : Table) :
  utf8_keys tb = true ↔ ∀ k, is_Some (tb !! k) → is_Some (Text.decode_opt k).
Proof.
  unfold utf8_keys. rewrite forallb_forall. split.
  - intros H k Hk. eapply bool_decide_eq_true_1, H. by apply list_elem_of_In, elem_of_key_list.
  - intros H k Hk%list_elem_of_In%elem_of_key_list. by apply bool_decide_eq_true_2, H.
Qed.

Lemma apply_set_mutation self tb k v :
  apply_mutation tb (set_mutation self (k, v))
  = <[utf8 k :=
        <[value_column_family self :=
            <[utf8 (value_column_qualifier self) :=
                mkCell v :: column (default ∅ (tb !! utf8 k)) (value_column_family self)
                              (utf8 (value_column_qualifier self))]>
              (default ∅ (default ∅ (tb !! utf8 k) !! value_column_family self))]>
          (default ∅ (tb !! utf8 k))]> tb.
Proof. reflexivity. Qed.

Lemma column_insert_other (row : Cells) f q f' q' (cs : list Cell) :
  (f', q') ≠ (f, q) →
  column (<[f := <[q := cs]> (default ∅ (row !! f))]> row) f' q' = column row f' q'.
Proof.
  intros Hne. unfold column. destruct (decide (f' = f)) as [->|Hf].
  - rewrite lookup_insert_eq. simpl. rewrite lookup_insert_ne by congruence. done.
  - by rewrite lookup_insert_ne.
Qed.

Lemma lookup_after_sets_other self tb kvs kb :
  kb ∉ utf8 <$> kvs.*1 →
  foldl apply_mutation tb (set_mutation self <$> kvs) !! kb = tb !! kb.
Proof.
  revert tb. induction kvs as [|[k v] kvs IH]; intros tb Hnin; [done|].
  rewrite !fmap_cons in Hnin. apply not_elem_of_cons in Hnin as [Hne Hnin].
  rewrite fmap_cons. cbn [foldl]. rewrite (IH _ Hnin), apply_set_mutation.
  by rewrite lookup_insert_ne.
Qed.

Lemma is_Some_after_sets self tb kvs kb :
  is_Some (foldl apply_mutation tb (set_mutation self <$> kvs) !! kb)
  ↔ is_Some (tb !! kb) ∨ kb ∈ utf8 <$> kvs.*1.
Proof.
  revert tb. induction kvs as [|[k v] kvs IH]; intros tb.
  - simpl. split; [by left|]. intros [H|H]; [done|]. by apply elem_of_nil in H.
  - rewrite !fmap_cons. cbn [foldl]. rewrite IH, apply_set_mutation, elem_of_cons.
    cbn [fst]. destruct (decide (kb = utf8 k)) as [->|Hne].
    + rewrite lookup_insert_eq. split; eauto.
    + rewrite lookup_insert_ne by done. split; intros [?|?]; auto.
      destruct H as [?|?]; [done|auto].
Qed.

Lemma column_after_sets self tb kvs kb f q :
  (f, q) ≠ (value_column_family self, utf8 (value_column_qualifier self)) →
  column (default ∅ (foldl apply_mutation tb (set_mutation self <$> kvs) !! kb)) f q
  = column (default ∅ (tb !! kb)) f q.
Proof.
  intros Hne. revert tb. induction kvs as [|[k v] kvs IH]; intros tb; [done|].
  rewrite fmap_cons. cbn [foldl]. rewrite IH, apply_set_mutation.
  destruct (decide (kb = utf8 k)) as [->|Hk].
  - rewrite lookup_insert_eq. simpl. by apply column_insert_other.
  - by rewrite lookup_insert_ne.
Qed.

Lemma lookup_after_deletes tb keys kb :
  foldl apply_mutation tb (delete_mutation <$> keys) !! kb
  = if decide (kb ∈ utf8 <$> keys) then None else tb !! kb.
Proof.
  revert tb. induction keys as [|k keys IH]; intros tb.
  - rewrite !fmap_nil. cbn [foldl]. rewrite decide_False; [done|]. apply not_elem_of_nil.
  - rewrite !fmap_cons. cbn [foldl]. rewrite IH, apply_delete_mutation.
    destruct (decide (kb = utf8 k)) as [->|Hne].
    + rewrite lookup_delete_eq, (decide_True _ _ (list_elem_of_here _ _)).
      by case_decide.
    + rewrite lookup_delete_ne by done.
      destruct (decide (kb ∈ utf8 <$> keys)) as [Hin|Hnin].
      * by rewrite (decide_True _ _ (list_elem_of_further _ _ _ Hin)).
      * rewrite decide_False; [done|]. by intros [?|?]%elem_of_cons.
Qed.

Lemma amset_loop_fail_qualifier self kv acc :
  kv ≠ [] → Text.is_text (value_column_qualifier self) = false →
  amset_loop self kv acc = Raise UnicodeEncodeError.
Proof.
  destruct kv as [|[k v] kvs]; [done|]. intros _ Hq. simpl.
  destruct (encode_cases k) as [[-> _]|[-> _]]; [|done].
  by rewrite (encode_not_text _ Hq).
Qed.

(** The outcomes of [amset]: it raises with nothing done, or the list is
    empty and nothing is done, or every pair is written in one call. *)
Lemma amset_cases self kv r :
  amset self kv r = (Raise UnicodeEncodeError, r)
  ∨ kv = [] ∧ amset self kv r = (Ok (), r)
  ∨ all_text kv.*1 = true ∧
    amset self kv r =
      (Ok (), mkRemote (foldl apply_mutation (contents r) (set_mutation self <$> kv))
                (calls r ++ [MutateRows (set_mutation self <$> kv)])).
Proof.
  destruct kv as [|kv0 kvs]; [by auto|]. set (kv := kv0 :: kvs).
  destruct (all_text kv.*1) eqn:Hks.
  - destruct (Text.is_text (value_column_qualifier self)) eqn:Hq.
    + right. right. split; [done|]. by apply amset_spec.
    + left. unfold amset.
      by rewrite (bind_lift_raise _ _ _ _ (amset_loop_fail_qualifier self kv [] ltac:(done) Hq)).
  - left. unfold amset. by rewrite (bind_lift_raise _ _ _ _ (amset_loop_fail self _ [] Hks)).
Qed.

Lemma amdelete_cases self keys r :
  amdelete self keys r = (Raise UnicodeEncodeError, r)
  ∨ all_text keys = true ∧
    contents (amdelete self keys r).2
    = foldl apply_mutation (contents r) (delete_mutation <$> keys) ∧
    (amdelete self keys r).1 = Ok ().
Proof.
  destruct (all_text keys) eqn:Hks.
  - right. split; [done|]. destruct keys as [|k0 ks]; [done|].
    by rewrite amdelete_spec.
  - left. unfold amdelete.
    by rewrite (bind_lift_raise _ _ _ _ (amdelete_loop_fail _ [] Hks)).
Qed.

(** X5. [amset] changes nothing but the configured column of the rows it
    names: every other row is as before, and on every row every other
    column keeps its cells. *)
Theorem amset_touches_configured_column_only self kv_pairs r :
  all_text kv_pairs.*1 = true →
  Text.is_text (value_column_qualifier self) = true →
  ∃ r',
    amset self kv_pairs r = (Ok (), r') ∧
    (∀ kb, kb ∉ utf8 <$> kv_pairs.*1 → contents r' !! kb = contents r !! kb) ∧
    (∀ kb f q,
       (f, q) ≠ (value_column_family self, utf8 (value_column_qualifier self)) →
       column (default ∅ (contents r' !! kb)) f q
       = column (default ∅ (contents r !! kb)) f q).
Proof.
  intros Hks Hq. destruct kv_pairs as [|kv0 kvs].
  { exists r. by repeat split. }
  eexists. split; [by apply amset_spec|]. cbn [contents]. split.
  - intros kb Hkb. by apply lookup_after_sets_other.
  - intros kb f q Hne. by apply column_after_sets.
Qed.

(** X6. After [amdelete] on a list of keys none of them has a row, every
    other row is as before, and [amget] on the list returns [None] for each
    key. *)
Theorem amdelete_keys_then_amget self keys r :
  all_text keys = true →
  faithful (th_client (table self)) →
  ∃ r1,
    amdelete self keys r = (Ok (), r1) ∧
    (∀ k, k ∈ keys → contents r1 !! utf8 k = None) ∧
    (∀ kb, kb ∉ utf8 <$> keys → contents r1 !! kb = contents r !! kb) ∧
    (amget self keys r1).1 = Ok (replicate (length keys) None).
Proof.
  intros Hks Hc.
  assert (∃ r1, amdelete self keys r = (Ok (), r1) ∧
            contents r1 = foldl apply_mutation (contents r) (delete_mutation <$> keys))
    as (r1 & Hrun & Hcont).
  { destruct keys as [|k0 ks]; [by exists r|]. eexists. by rewrite amdelete_spec. }
  assert (Hgone : ∀ k, k ∈ keys → contents r1 !! utf8 k = None).
  { intros k Hk. rewrite Hcont, lookup_after_deletes.
    case_decide as Hin; [done|]. exfalso. by apply Hin, list_elem_of_fmap_2. }
  exists r1. split; [done|]. split; [done|]. split.
  - intros kb Hkb. rewrite Hcont, lookup_after_deletes. by case_decide.
  - by apply amget_absent_run.
Qed.

(** X7. The store only ever makes rows under UTF-8 keys: a table whose row
    keys all decode keeps that property through [amset] and [amdelete],
    whatever their arguments and outcome. *)
Theorem utf8_keys_preserved self r :
  utf8_keys (contents r) = true →
  (∀ kv_pairs, utf8_keys (contents (amset self kv_pairs r).2) = true) ∧
  (∀ keys, utf8_keys (contents (amdelete self keys r).2) = true).
Proof.
  intros Hinv. split.
  - intros kv. destruct (amset_cases self kv r) as [->|[[_ ->]|[Hks ->]]]; [done|done|].
    cbn [snd contents]. apply utf8_keys_spec. intros kb [H|H]%is_Some_after_sets.
    + by apply (proj1 (utf8_keys_spec _) Hinv).
    + apply list_elem_of_fmap in H as (k & -> & Hk).
      rewrite decode_utf8; [by eexists|]. by eapply all_text_elem.
  - intros keys. destruct (amdelete_cases self keys r) as [->|(_ & -> & _)]; [done|].
    apply utf8_keys_spec. intros kb. rewrite lookup_after_deletes.
    case_decide; [by intros [? ?]|]. by apply (proj1 (utf8_keys_spec _) Hinv).
Qed.

(** X8. After [amset] the table has a row under the UTF-8 form of every key
    written, and beyond these no row that it did not have before. *)
Theorem amset_rows self kv_pairs r :
  all_text kv_pairs.*1 = true →
  Text.is_text (value_column_qualifier self) = true →
  ∃ r',
    amset self kv_pairs r = (Ok (), r') ∧
    ∀ kb, is_Some (contents r' !! kb)
          ↔ is_Some (contents r !! kb) ∨ kb ∈ utf8 <$> kv_pairs.*1.
Proof.
  intros Hks Hq. destruct kv_pairs as [|kv0 kvs].
  { exists r. split; [done|]. intros kb. split; [by left|].
    intros [H|H]; [done|]. by apply elem_of_nil in H. }
  eexists. split; [by apply amset_spec|]. cbn [contents].
  intros kb. apply is_Some_after_sets.
Qed.

End MoreWrites.

Section MoreEnumeration.
Import AsyncBigtableByteStore.

Lemma ltb_successor p : p ≠ [] → Text.ltb p (successor p) = true.
Proof.
  induction p as [|c p IH]; [done|]. intros _. destruct p as [|c' p'].
  - unfold successor. simpl. destruct (Z.ltb_spec c (c + 1)); [done|lia].
  - rewrite successor_cons by done.
    change (Text.ltb (c :: c' :: p') (c :: successor (c' :: p')))
      with ((c <? c) || ((c =? c) && Text.ltb (c' :: p') (successor (c' :: p')))).
    rewrite Z.ltb_irrefl, Z.eqb_refl, IH; done.
Qed.

(** X10. For a prefix it can turn into a range, [ayield_keys] computes an end
    key strictly above the start key: the range is never empty by
    construction nor inverted. *)
Theorem end_key_above_prefix p :
  p ≠ [] → admissible (Some p) = true →
  ∃ e, end_key p = Ok e ∧ Text.is_text e = true ∧
       Text.ltb (utf8 p) (utf8 e) = true.
Proof.
  intros Hne Hadm. simpl in Hadm. apply andb_true_iff in Hadm as [Hp Hs].
  destruct (is_text_successor p Hne Hp Hs) as [Hsucc Hend].
  exists (successor p). split; [done|]. split; [done|].
  rewrite utf8_order by done. by apply ltb_successor.
Qed.

(** X9. The half-open range from the encoded prefix to the encoded end key
    of [ayield_keys], the two bounds its lines 150 and 153 describe, holds
    exactly the UTF-8 row keys whose text starts with the prefix. *)
Theorem end_key_range_selects_prefix p k s :
  p ≠ [] → admissible (Some p) = true → Text.decode_opt k = Some s →
  ∃ e lo hi,
    end_key p = Ok e ∧ Text.encode p = Ok lo ∧ Text.encode e = Ok hi ∧
    in_range (mkRowRange lo hi) k = starts_with p s.
Proof.
  intros Hne Hadm Hk. simpl in Hadm. apply andb_true_iff in Hadm as [Hp Hs].
  destruct (is_text_successor p Hne Hp Hs) as [Hsucc Hend].
  exists (successor p), (utf8 p), (utf8 (successor p)).
  split; [done|]. split; [by apply encode_text|]. split; [by apply encode_text|].
  by apply (between_utf8 p k s).
Qed.

End MoreEnumeration.

Section MoreFacade.

Lemma families_of_lookup cfs cf :
  families_of cfs !! cf = if decide (cf ∈ cfs) then Some (MaxVersionsGCRule 1) else None.
Proof.
  unfold families_of. induction cfs as [|x cfs IH] using rev_ind.
  - cbn [foldl]. rewrite lookup_empty.
    destruct (decide (cf ∈ [])) as [H%elem_of_nil|]; done.
  - rewrite foldl_app. cbn [foldl]. destruct (decide (cf = x)) as [->|Hne].
    + rewrite lookup_insert_eq, decide_True; [done|].
      apply elem_of_app. right. apply list_elem_of_here.
    + rewrite lookup_insert_ne, IH by done.
      destruct (decide (cf ∈ cfs)) as [Hin|Hnin].
      * rewrite decide_True; [done|]. apply elem_of_app. by left.
      * rewrite decide_False; [done|].
        intros [?|?%list_elem_of_singleton]%elem_of_app; done.
Qed.

(** X14. [init_byte_store_table] on a table that does not exist yet creates
    it with exactly the column families listed, each keeping one version,
    and leaves every other table alone; a second call on the same table
    raises [AlreadyExists] and changes nothing. *)
Theorem init_byte_store_table_families (instance_id table_id : string)
    (cfs : list pystr) (a : Admin) :
  a !! (instance_id, table_id) = None →
  ∃ a',
    init_byte_store_table instance_id table_id (Some cfs) a = (None, a') ∧
    (∃ fams, a' !! (instance_id, table_id) = Some fams ∧
       ∀ cf, fams !! cf = if decide (cf ∈ cfs) then Some (MaxVersionsGCRule 1) else None) ∧
    (∀ id, id ≠ (instance_id, table_id) → a' !! id = a !! id) ∧
    (∀ cfs', init_byte_store_table instance_id table_id (Some cfs') a'
             = (Some AlreadyExists, a')).
Proof.
  unfold init_byte_store_table, table_create. intros ->.
  eexists. split; [done|]. split; [|split].
  - eexists. split; [apply lookup_insert_eq|]. apply families_of_lookup.
  - intros id Hid. by rewrite lookup_insert_ne.
  - intros cfs'. by rewrite lookup_insert_eq.
Qed.

(** X12. Through the blocking entry points of the facade a write is seen by
    the read that follows: [mset] on pairs under distinct keys, then [mget]
    on those keys, returns the values written, in order. *)
Theorem facade_mset_then_mget facade kv_pairs r :
  NoDup kv_pairs.*1 →
  all_text kv_pairs.*1 = true →
  Text.is_text (AsyncBigtableByteStore.value_column_qualifier
                  (BigtableByteStore.__async_store facade)) = true →
  faithful (th_client (AsyncBigtableByteStore.table
                         (BigtableByteStore.__async_store facade))) →
  ∃ r1 r2,
    BigtableByteStore.mset facade kv_pairs r = (Ok (), r1) ∧
    BigtableByteStore.mget facade kv_pairs.*1 r1 = (Ok (Some <$> kv_pairs.*2), r2).
Proof.
  intros Hnd Hks Hq Hc. unfold BigtableByteStore.mset, BigtableByteStore.mget.
  destruct kv_pairs as [|kv0 kvs].
  { exists r, r. split; reflexivity. }
  set (kv_pairs := kv0 :: kvs) in *.
  eexists _, _. split.
  - rewrite (bind_ok _ _ _ _ _ (engine_entry_sync facade r)). unfold dispatch.
    by apply amset_spec.
  - rewrite (bind_ok _ _ _ _ _ (engine_entry_sync facade _)). unfold dispatch.
    rewrite amget_spec by done. f_equal. f_equal. cbn [contents].
    rewrite <- !list_fmap_compose.
    apply Forall_fmap_ext, Forall_forall. intros [k v] Hin.
    unfold compose. cbn [fst snd]. by apply stored_after_sets.
Qed.

End MoreFacade.

(** ** The properties at concrete inputs *)

(** C1 at the example table: the four pairs written to an empty table, then
    read back through a query that repeats a key and changes the order. *)
Lemma amset_then_amget_witness :
  NoDup demo_pairs.*1 ∧
  all_text demo_pairs.*1 = true ∧
  Text.is_text (AsyncBigtableByteStore.value_column_qualifier demo_store) = true ∧
  faithful backwards_client ∧
  (∀ k, k ∈ demo_query → k ∈ demo_pairs.*1) ∧
  ∃ r1 r2 values,
    AsyncBigtableByteStore.amset demo_store demo_pairs empty_remote = (Ok (), r1) ∧
    AsyncBigtableByteStore.amget demo_store demo_query r1 = (Ok values, r2) ∧
    length values = length demo_query ∧
    (∀ i k, demo_query !! i = Some k →
       ∃ v, (k, v) ∈ demo_pairs ∧ values !! i = Some (Some v)) ∧
    (demo_query = demo_pairs.*1 → values = Some <$> demo_pairs.*2).
Proof.
  assert (H1 : NoDup demo_pairs.*1).
  { apply (bool_decide_unpack _). vm_compute. exact I. }
  assert (H2 : all_text demo_pairs.*1 = true) by (vm_compute; reflexivity).
  assert (H3 : Text.is_text (AsyncBigtableByteStore.value_column_qualifier demo_store) = true)
    by (vm_compute; reflexivity).
  assert (H5 : ∀ k, k ∈ demo_query → k ∈ demo_pairs.*1).
  { apply Forall_forall. apply (bool_decide_unpack _). vm_compute. exact I. }
  repeat split; try assumption.
  - apply backwards_faithful.
  - exact (amset_then_amget demo_store demo_pairs demo_query empty_remote
             H1 H2 H3 backwards_faithful H5).
Defined.

(** C2 at the example table, read through a client that hands back rows
    last row first. *)
Lemma amget_one_read_in_order_witness :
  demo_query ≠ [] ∧
  all_text demo_query = true ∧
  Text.is_text (AsyncBigtableByteStore.value_column_qualifier demo_store) = true ∧
  faithful backwards_client ∧
  ∃ results r',
    AsyncBigtableByteStore.amget demo_store demo_query demo_remote = (Ok results, r') ∧
    calls r' = calls demo_remote ++ [ReadRows (utf8 <$> demo_query)] ∧
    contents r' = contents demo_remote ∧
    length results = length demo_query ∧
    (∀ i k, demo_query !! i = Some k →
       results !! i = Some
         match contents demo_remote !! utf8 k with
         | Some cs =>
             match column cs (AsyncBigtableByteStore.value_column_family demo_store)
                     (utf8 (AsyncBigtableByteStore.value_column_qualifier demo_store)) with
             | c :: _ => Some (value c)
             | [] => None
             end
         | None => None
         end) ∧
    (∀ i j k, demo_query !! i = Some k → demo_query !! j = Some k →
       results !! i = results !! j).
Proof.
  assert (H1 : demo_query ≠ []) by discriminate.
  assert (H2 : all_text demo_query = true) by (vm_compute; reflexivity).
  assert (H3 : Text.is_text (AsyncBigtableByteStore.value_column_qualifier demo_store) = true)
    by (vm_compute; reflexivity).
  split; [exact H1|]. split; [exact H2|]. split; [exact H3|].
  split; [exact backwards_faithful|].
  exact (amget_one_read_in_order demo_store demo_query demo_remote
           H1 H2 H3 backwards_faithful).
Defined.

(** C4 at the example table: the row ab1 deleted, then read. *)
Lemma amdelete_then_amget_witness :
  Text.is_text (Text.of_string "ab1") = true ∧
  faithful backwards_client ∧
  ∃ r1 r2,
    AsyncBigtableByteStore.amdelete demo_store [Text.of_string "ab1"] demo_remote = (Ok (), r1) ∧
    calls r1 = calls demo_remote
               ++ [MutateRows [mkDirectRow (utf8 (Text.of_string "ab1")) [DeleteRow]]] ∧
    contents r1 = delete (utf8 (Text.of_string "ab1")) (contents demo_remote) ∧
    contents r1 !! utf8 (Text.of_string "ab1") = None ∧
    AsyncBigtableByteStore.amget demo_store [Text.of_string "ab1"] r1 = (Ok [None], r2).
Proof.
  assert (H1 : Text.is_text (Text.of_string "ab1") = true) by (vm_compute; reflexivity).
  split; [exact H1|]. split; [exact backwards_faithful|].
  exact (amdelete_then_amget demo_store (Text.of_string "ab1") demo_remote
           H1 backwards_faithful).
Defined.

(** ** The further properties at concrete inputs *)

(** X1 at a concrete input. *)
Lemma amget_absent_keys_witness :
  all_text absent_query = true ∧
  faithful backwards_client ∧
  (∀ k, k ∈ absent_query → contents demo_remote !! utf8 k = None) ∧
  (AsyncBigtableByteStore.amget demo_store absent_query demo_remote).1
    = Ok (replicate (length absent_query) None).
Proof.
  assert (H1 : all_text absent_query = true) by (vm_compute; reflexivity).
  assert (H3 : ∀ k, k ∈ absent_query → contents demo_remote !! utf8 k = None).
  { apply Forall_forall. repeat constructor; vm_compute; reflexivity. }
  split; [exact H1|]. split; [exact backwards_faithful|]. split; [exact H3|].
  exact (amget_absent_keys demo_store absent_query demo_remote H1 backwards_faithful H3).
Defined.

(** X2 at a concrete input. *)
Lemma amget_length_witness :
  AsyncBigtableByteStore.amget demo_store demo_query demo_remote
    = (Ok [Some [4]; Some [1]; Some [4]],
       (AsyncBigtableByteStore.amget demo_store demo_query demo_remote).2) ∧
  length [Some [4]; Some [1]; Some [4]] = length demo_query.
Proof.
  assert (H : AsyncBigtableByteStore.amget demo_store demo_query demo_remote
              = (Ok [Some [4]; Some [1]; Some [4]],
                 (AsyncBigtableByteStore.amget demo_store demo_query demo_remote).2))
    by (vm_compute; reflexivity).
  split; [exact H|].
  exact (amget_length demo_store demo_query demo_remote _ _ H).
Defined.

(** X4 at a concrete input. *)
Lemma unencodable_key_reaches_no_client_witness :
  all_text surrogate_pairs.*1 = false ∧
  AsyncBigtableByteStore.amset demo_store surrogate_pairs demo_remote
    = (Raise UnicodeEncodeError, demo_remote) ∧
  AsyncBigtableByteStore.amget demo_store surrogate_pairs.*1 demo_remote
    = (Raise UnicodeEncodeError, demo_remote) ∧
  AsyncBigtableByteStore.amdelete demo_store surrogate_pairs.*1 demo_remote
    = (Raise UnicodeEncodeError, demo_remote).
Proof.
  assert (H : all_text surrogate_pairs.*1 = false) by (vm_compute; reflexivity).
  split; [exact H|].
  exact (unencodable_key_reaches_no_client demo_store surrogate_pairs demo_remote H).
Defined.

(** X5 at a concrete input. *)
Lemma amset_touches_configured_column_only_witness :
  all_text demo_pairs.*1 = true ∧
  Text.is_text (AsyncBigtableByteStore.value_column_qualifier demo_store) = true ∧
  ∃ r',
    AsyncBigtableByteStore.amset demo_store demo_pairs raw_remote = (Ok (), r') ∧
    (∀ kb, kb ∉ utf8 <$> demo_pairs.*1 → contents r' !! kb = contents raw_remote !! kb) ∧
    (∀ kb f q,
       (f, q) ≠ (AsyncBigtableByteStore.value_column_family demo_store,
                 utf8 (AsyncBigtableByteStore.value_column_qualifier demo_store)) →
       column (default ∅ (contents r' !! kb)) f q
       = column (default ∅ (contents raw_remote !! kb)) f q).
Proof.
  assert (H1 : all_text demo_pairs.*1 = true) by (vm_compute; reflexivity).
  assert (H2 : Text.is_text (AsyncBigtableByteStore.value_column_qualifier demo_store) = true)
    by (vm_compute; reflexivity).
  split; [exact H1|]. split; [exact H2|].
  exact (amset_touches_configured_column_only demo_store demo_pairs raw_remote H1 H2).
Defined.

(** X6 at a concrete input. *)
Lemma amdelete_keys_then_amget_witness :
  all_text demo_query = true ∧
  faithful backwards_client ∧
  ∃ r1,
    AsyncBigtableByteStore.amdelete demo_store demo_query demo_remote = (Ok (), r1) ∧
    (∀ k, k ∈ demo_query → contents r1 !! utf8 k = None) ∧
    (∀ kb, kb ∉ utf8 <$> demo_query → contents r1 !! kb = contents demo_remote !! kb) ∧
    (AsyncBigtableByteStore.amget demo_store demo_query r1).1
      = Ok (replicate (length demo_query) None).
Proof.
  assert (H1 : all_text demo_query = true) by (vm_compute; reflexivity).
  split; [exact H1|]. split; [exact backwards_faithful|].
  exact (amdelete_keys_then_amget demo_store demo_query demo_remote H1 backwards_faithful).
Defined.

(** X7 at a concrete input. *)
Lemma utf8_keys_preserved_witness :
  utf8_keys (contents demo_remote) = true ∧
  (∀ kv_pairs,
     utf8_keys (contents (AsyncBigtableByteStore.amset demo_store kv_pairs demo_remote).2)
     = true) ∧
  (∀ keys,
     utf8_keys (contents (AsyncBigtableByteStore.amdelete demo_store keys demo_remote).2)
     = true).
Proof.
  assert (H : utf8_keys (contents demo_remote) = true) by (vm_compute; reflexivity).
  split; [exact H|]. exact (utf8_keys_preserved demo_store demo_remote H).
Defined.

(** X8 at a concrete input. *)
Lemma amset_rows_witness :
  all_text demo_pairs.*1 = true ∧
  Text.is_text (AsyncBigtableByteStore.value_column_qualifier demo_store) = true ∧
  ∃ r',
    AsyncBigtableByteStore.amset demo_store demo_pairs raw_remote = (Ok (), r') ∧
    ∀ kb, is_Some (contents r' !! kb)
          ↔ is_Some (contents raw_remote !! kb) ∨ kb ∈ utf8 <$> demo_pairs.*1.
Proof.
  assert (H1 : all_text demo_pairs.*1 = true) by (vm_compute; reflexivity).
  assert (H2 : Text.is_text (AsyncBigtableByteStore.value_column_qualifier demo_store) = true)
    by (vm_compute; reflexivity).
  split; [exact H1|]. split; [exact H2|].
  exact (amset_rows demo_store demo_pairs raw_remote H1 H2).
Defined.

(** X9 at a concrete input. *)
Lemma end_key_range_selects_prefix_witness :
  Text.of_string "ab" ≠ [] ∧
  admissible (Some (Text.of_string "ab")) = true ∧
  Text.decode_opt (utf8 (Text.of_string "ab1")) = Some (Text.of_string "ab1") ∧
  ∃ e lo hi,
    AsyncBigtableByteStore.end_key (Text.of_string "ab") = Ok e ∧
    Text.encode (Text.of_string "ab") = Ok lo ∧ Text.encode e = Ok hi ∧
    in_range (mkRowRange lo hi) (utf8 (Text.of_string "ab1"))
    = starts_with (Text.of_string "ab") (Text.of_string "ab1").
Proof.
  assert (H1 : Text.of_string "ab" ≠ []) by (vm_compute; discriminate).
  assert (H2 : admissible (Some (Text.of_string "ab")) = true) by (vm_compute; reflexivity).
  assert (H3 : Text.decode_opt (utf8 (Text.of_string "ab1")) = Some (Text.of_string "ab1"))
    by (vm_compute; reflexivity).
  split; [exact H1|]. split; [exact H2|]. split; [exact H3|].
  exact (end_key_range_selects_prefix (Text.of_string "ab") (utf8 (Text.of_string "ab1"))
           (Text.of_string "ab1") H1 H2 H3).
Defined.

(** X10 at a concrete input. *)
Lemma end_key_above_prefix_witness :
  Text.of_string "ab" ≠ [] ∧
  admissible (Some (Text.of_string "ab")) = true ∧
  ∃ e, AsyncBigtableByteStore.end_key (Text.of_string "ab") = Ok e ∧
       Text.is_text e = true ∧
       Text.ltb (utf8 (Text.of_string "ab")) (utf8 e) = true.
Proof.
  assert (H1 : Text.of_string "ab" ≠ []) by (vm_compute; discriminate).
  assert (H2 : admissible (Some (Text.of_string "ab")) = true) by (vm_compute; reflexivity).
  split; [exact H1|]. split; [exact H2|].
  exact (end_key_above_prefix (Text.of_string "ab") H1 H2).
Defined.

(** X12 at a concrete input. *)
Lemma facade_mset_then_mget_witness :
  NoDup demo_pairs.*1 ∧
  all_text demo_pairs.*1 = true ∧
  Text.is_text (AsyncBigtableByteStore.value_column_qualifier
                  (BigtableByteStore.__async_store demo_facade)) = true ∧
  faithful (th_client (AsyncBigtableByteStore.table
                         (BigtableByteStore.__async_store demo_facade))) ∧
  ∃ r1 r2,
    BigtableByteStore.mset demo_facade demo_pairs empty_remote = (Ok (), r1) ∧
    BigtableByteStore.mget demo_facade demo_pairs.*1 r1 = (Ok (Some <$> demo_pairs.*2), r2).
Proof.
  assert (H1 : NoDup demo_pairs.*1).
  { apply (bool_decide_unpack _). vm_compute. exact I. }
  assert (H2 : all_text demo_pairs.*1 = true) by (vm_compute; reflexivity).
  assert (H3 : Text.is_text (AsyncBigtableByteStore.value_column_qualifier
                  (BigtableByteStore.__async_store demo_facade)) = true)
    by (vm_compute; reflexivity).
  split; [exact H1|]. split; [exact H2|]. split; [exact H3|].
  split; [exact backwards_faithful|].
  exact (facade_mset_then_mget demo_facade demo_pairs empty_remote
           H1 H2 H3 backwards_faithful).
Defined.

(** X14 at a concrete input. *)
Lemma init_byte_store_table_families_witness :
  (∅ : Admin) !! ("instance", "table") = None ∧
  ∃ a',
    init_byte_store_table "instance" "table" (Some DEFAULT_TABLE_COLUMN_FAMILIES) (∅ : Admin)
      = (None, a') ∧
    (∃ fams, a' !! ("instance", "table") = Some fams ∧
       ∀ cf, fams !! cf = if decide (cf ∈ DEFAULT_TABLE_COLUMN_FAMILIES)
                          then Some (MaxVersionsGCRule 1) else None) ∧
    (∀ id, id ≠ ("instance", "table") → a' !! id = (∅ : Admin) !! id) ∧
    (∀ cfs', init_byte_store_table "instance" "table" (Some cfs') a'
             = (Some AlreadyExists, a')).
Proof.
  assert (H : (∅ : Admin) !! ("instance", "table") = None) by reflexivity.
  split; [exact H|].
  exact (init_byte_store_table_families "instance" "table" DEFAULT_TABLE_COLUMN_FAMILIES ∅ H).
Defined.
